(** * PBX telephone system: a shallow embedding of [tu.c], [pbx.c],
      [server.c] and the option processing of [main.c].

    The C code manipulates heap-allocated telephone units ([struct tu]) through
    pointers, a fixed array of such pointers inside the PBX, and writes
    notification lines to file descriptors with [dprintf].  The embedding keeps
    that shape:

    - a [TU *] is an [option positive]: [None] is [NULL], [Some a] an address;
    - the heap is a finite map from addresses to [tu] records, so that aliasing
      (two units pointing at one peer) and dangling pointers are visible;
    - the registry is the list of slots [PBX_REGISTRY[0..PBX_MAX_EXTENSIONS-1]];
    - every [dprintf] and [close] is appended to an output log;
    - a function is a computation [world -> option (A * world)]; [None] means
      the C function does not return normally (it dereferences [NULL] or a
      freed unit, reads an uninitialised pointer, or blocks on a semaphore it
      already holds).

    Each operation runs under the semaphores it takes, so one call is one
    atomic step of the model; interleavings of calls are not modelled. *)

From Stdlib Require Import ZArith String Ascii DecimalString.
From Stdlib Require DecimalZ.
From stdpp Require Import gmap strings list fin_maps.
From Equations Require Import Equations.

Open Scope Z_scope.
Open Scope string_scope.

(** ** Data model *)

(** The states named in [tu.c] (the enumeration itself lives in [pbx.h]). *)
Inductive tu_state : Type :=
  | TU_ON_HOOK
  | TU_RINGING
  | TU_DIAL_TONE
  | TU_RING_BACK
  | TU_BUSY_SIGNAL
  | TU_CONNECTED
  | TU_ERROR.

#[global] Instance tu_state_eq_dec : EqDecision tu_state.
Proof. solve_decision. Defined.

(** Addresses of allocated units; a [TU *] is an [option addr]. *)
Abbreviation addr := positive (only parsing).

(** [struct tu] of [pbx_registry.h], without the semaphore: every function
    releases the semaphores it acquires before it returns, so between calls
    all of them are free. *)
Record tu : Type := mkTU {
  fd : Z;
  target : option addr;
  state : tu_state;
  ref_count : Z
}.

(** What the server does to file descriptors. *)
Inductive event : Type :=
  | Wr (d : Z) (line : string)
  | Cl (d : Z).

Record world : Type := mkWorld {
  heap : gmap positive tu;
  registry : list (option addr);
  out : list event
}.

(** ** The monad of C functions *)

Definition M (A : Type) : Type := world -> option (A * world).

Definition ret {A} (x : A) : M A := fun w => Some (x, w).

Definition bind {A B} (c : M A) (k : A -> M B) : M B :=
  fun w => match c w with
           | Some (x, w') => k x w'
           | None => None
           end.

Definition fail {A} : M A := fun _ => None.

Notation "x <- c ;; k" := (bind c (fun x => k))
  (at level 100, c at next level, right associativity).
Notation "c ;;; k" := (bind c (fun _ => k))
  (at level 100, right associativity).

(** [*p] for a unit pointer: fails on a freed address. *)
Definition load (a : addr) : M tu :=
  fun w => match heap w !! a with
           | Some t => Some (t, w)
           | None => None
           end.

Definition store (a : addr) (t : tu) : M unit :=
  fun w => Some (tt, mkWorld (<[a := t]> (heap w)) (registry w) (out w)).

(** [p->...] for a [TU *] that may be [NULL]. *)
Definition deref (p : option addr) : M addr :=
  match p with
  | Some a => ret a
  | None => fail
  end.

Definition set_state (a : addr) (s : tu_state) : M unit :=
  t <- load a ;;
  store a (mkTU (fd t) (target t) s (ref_count t)).

Definition set_target (a : addr) (p : option addr) : M unit :=
  t <- load a ;;
  store a (mkTU (fd t) p (state t) (ref_count t)).

Definition set_ref_count (a : addr) (n : Z) : M unit :=
  t <- load a ;;
  store a (mkTU (fd t) (target t) (state t) n).

Definition free (a : addr) : M unit :=
  fun w => Some (tt, mkWorld (delete a (heap w)) (registry w) (out w)).

Definition emit (e : event) : M unit :=
  fun w => Some (tt, mkWorld (heap w) (registry w) (out w ++ [e])).

Definition dprintf (d : Z) (line : string) : M unit := emit (Wr d line).

Definition close (d : Z) : M unit := emit (Cl d).

Definition get_registry : M (list (option addr)) :=
  fun w => Some (registry w, w).

Definition set_registry (r : list (option addr)) : M unit :=
  fun w => Some (tt, mkWorld (heap w) r (out w)).

(** [P(&(q->mutex))] while the semaphore of [a] is held: the caller blocks
    for ever when [q] is [a] itself. *)
Definition P_second (a q : addr) : M tu :=
  if decide (q = a) then fail else load q.

(** ** Output formats *)

(** The two bytes the code writes as backslash-r backslash-n. *)
Definition EOL : string := String "013"%char (String "010"%char EmptyString).

(** [printf]'s [%d]. *)
Definition dec (z : Z) : string := NilZero.string_of_int (Z.to_int z).

Definition line_ON_HOOK (d : Z) : string := "ON HOOK " ++ dec d ++ EOL.
Definition line_RINGING : string := "RINGING" ++ EOL.
Definition line_DIAL_TONE : string := "DIAL TONE" ++ EOL.
Definition line_RING_BACK : string := "RING BACK" ++ EOL.
Definition line_BUSY_SIGNAL : string := "BUSY SIGNAL" ++ EOL.
Definition line_CONNECTED (d : Z) : string := "CONNECTED " ++ dec d ++ EOL.
Definition line_ERROR : string := "ERROR" ++ EOL.
(** The format of [tu_chat]: the word is in lower case in the source. *)
Definition line_chat (msg : string) : string := "chat " ++ msg ++ EOL.

(** One arm of the [if (tu->state == ...) dprintf(tu->fd, ...)] chains that
    [tu_dial], [tu_pickup] and [tu_chat] use to report the state [s] of the
    unit at [a].  The [TU_CONNECTED] arm reads [tu->target->fd]. *)
Definition report (a : addr) (s : tu_state) : M unit :=
  t <- load a ;;
  match s with
  | TU_ON_HOOK => dprintf (fd t) (line_ON_HOOK (fd t))
  | TU_RINGING => dprintf (fd t) line_RINGING
  | TU_DIAL_TONE => dprintf (fd t) line_DIAL_TONE
  | TU_RING_BACK => dprintf (fd t) line_RING_BACK
  | TU_BUSY_SIGNAL => dprintf (fd t) line_BUSY_SIGNAL
  | TU_CONNECTED =>
      p <- deref (target t) ;;
      u <- load p ;;
      dprintf (fd t) (line_CONNECTED (fd u))
  | TU_ERROR => dprintf (fd t) line_ERROR
  end.

(** ** [tu.c] *)

(** [tu_init]: [malloc] returns an address that is not allocated; the
    allocation is assumed to succeed. *)
Definition tu_init (d : Z) : M addr :=
  fun w =>
    let a := fresh (dom (heap w)) in
    Some (a, mkWorld (<[a := mkTU d None TU_ON_HOOK 1]> (heap w))
                     (registry w) (out w)).

Definition tu_ref (a : addr) : M unit :=
  t <- load a ;;
  set_ref_count a (ref_count t + 1).

Definition tu_unref (a : addr) : M unit :=
  t <- load a ;;
  set_ref_count a (ref_count t - 1) ;;;
  t' <- load a ;;
  if decide (ref_count t' = 0) then close (fd t') ;;; free a else ret tt.

Definition tu_fileno (tu : option addr) : M Z :=
  match tu with
  | None => ret (-1)
  | Some a => t <- load a ;; ret (fd t)
  end.

Definition tu_extension (tu : option addr) : M Z := tu_fileno tu.

Definition tu_set_extension (tu : option addr) (ext : Z) : M Z :=
  match tu with
  | None => ret (-1)
  | Some a =>
      t <- load a ;;
      store a (mkTU ext (target t) (state t) (ref_count t)) ;;;
      ret 0
  end.

(** The chain of [tu_dial] (both copies): every state but [TU_DIAL_TONE]. *)
Definition report_dial (a : addr) (s : tu_state) : M unit :=
  match s with
  | TU_DIAL_TONE => ret tt
  | _ => report a s
  end.

Definition tu_dial (tu callee : option addr) : M Z :=
  match tu with
  | None => ret (-1)
  | Some a =>
      t <- load a ;;
      match callee with
      | None =>
          if decide (state t = TU_DIAL_TONE) then
            set_state a TU_ERROR ;;;
            dprintf (fd t) line_ERROR ;;;
            ret (-1)
          else
            report_dial a (state t) ;;;
            ret 0
      | Some b =>
          if decide (a = b) then
            set_state a TU_BUSY_SIGNAL ;;;
            dprintf (fd t) line_BUSY_SIGNAL ;;;
            ret 0
          else
            u <- load b ;;
            if decide (state t <> TU_DIAL_TONE) then
              report_dial a (state t) ;;;
              ret 0
            else if decide (target u <> None \/ state u <> TU_ON_HOOK) then
              set_state a TU_BUSY_SIGNAL ;;;
              dprintf (fd t) line_BUSY_SIGNAL ;;;
              ret 0
            else
              set_target a (Some b) ;;;
              set_target b (Some a) ;;;
              set_state a TU_RING_BACK ;;;
              set_state b TU_RINGING ;;;
              dprintf (fd t) line_RING_BACK ;;;
              dprintf (fd u) line_RINGING ;;;
              tu_ref a ;;;
              tu_ref b ;;;
              ret 0
      end
  end.

(** The chain of [tu_pickup]: the states other than [TU_ON_HOOK] and
    [TU_RINGING]. *)
Definition report_pickup (a : addr) (s : tu_state) : M unit :=
  match s with
  | TU_ON_HOOK | TU_RINGING => ret tt
  | _ => report a s
  end.

Definition tu_pickup (tu : option addr) : M Z :=
  match tu with
  | None => ret (-1)
  | Some a =>
      t <- load a ;;
      if decide (state t <> TU_ON_HOOK /\ state t <> TU_RINGING) then
        report_pickup a (state t) ;;;
        ret 0
      else if decide (state t = TU_ON_HOOK) then
        set_state a TU_DIAL_TONE ;;;
        dprintf (fd t) line_DIAL_TONE ;;;
        ret 0
      else
        p <- deref (target t) ;;
        u <- P_second a p ;;
        set_state a TU_CONNECTED ;;;
        set_state p TU_CONNECTED ;;;
        dprintf (fd t) (line_CONNECTED (fd u)) ;;;
        dprintf (fd u) (line_CONNECTED (fd t)) ;;;
        ret 0
  end.

Definition tu_hangup (tu : option addr) : M Z :=
  match tu with
  | None => ret (-1)
  | Some a =>
      t <- load a ;;
      if decide (state t = TU_CONNECTED \/ state t = TU_RINGING) then
        p <- deref (target t) ;;
        u <- P_second a p ;;
        set_state a TU_ON_HOOK ;;;
        set_state p TU_DIAL_TONE ;;;
        set_target p None ;;;
        dprintf (fd t) (line_ON_HOOK (fd t)) ;;;
        dprintf (fd u) line_DIAL_TONE ;;;
        tu_unref p ;;;
        set_target a None ;;;
        tu_unref a ;;;
        ret 0
      else if decide (state t = TU_RING_BACK) then
        p <- deref (target t) ;;
        u <- P_second a p ;;
        set_state a TU_ON_HOOK ;;;
        set_state p TU_ON_HOOK ;;;
        set_target p None ;;;
        dprintf (fd t) (line_ON_HOOK (fd t)) ;;;
        dprintf (fd u) (line_ON_HOOK (fd u)) ;;;
        tu_unref p ;;;
        set_target a None ;;;
        tu_unref a ;;;
        ret 0
      else if decide (state t = TU_DIAL_TONE \/ state t = TU_BUSY_SIGNAL
                      \/ state t = TU_ERROR) then
        set_state a TU_ON_HOOK ;;;
        dprintf (fd t) (line_ON_HOOK (fd t)) ;;;
        ret 0
      else
        ret 0
  end.

Definition tu_chat (tu : option addr) (msg : string) : M Z :=
  match tu with
  | None => ret (-1)
  | Some a =>
      t <- load a ;;
      if decide (state t <> TU_CONNECTED) then
        ret (-1)
      else
        p <- deref (target t) ;;
        u <- P_second a p ;;
        dprintf (fd u) (line_chat msg) ;;;
        report a (state t) ;;;
        ret 0
  end.

(** ** [pbx.c] *)

(** [pbx_init]: all [PBX_MAX_EXTENSIONS] slots are empty.  The constant is
    defined in [pbx.h] and is a parameter here. *)
Definition pbx_init (PBX_MAX_EXTENSIONS : nat) : world :=
  mkWorld ∅ (replicate PBX_MAX_EXTENSIONS None) [].

(** The [for] loops of [pbx.c] return at the first slot that passes their
    test; [list_find] gives that slot's index. *)
Definition pbx_register (tu : option addr) (ext : Z) : M Z :=
  reg <- get_registry ;;
  match list_find (fun slot : option addr => slot = None) reg with
  | Some (i, _) =>
      set_registry (<[i := tu]> reg) ;;;
      dprintf ext (line_ON_HOOK ext) ;;;
      ret 0
  | None => ret (-1)
  end.

Definition pbx_unregister (tu : option addr) : M Z :=
  reg <- get_registry ;;
  match list_find (fun slot : option addr => slot = tu) reg with
  | Some (i, _) =>
      a <- deref tu ;;
      t <- load a ;;
      (if decide (state t <> TU_CONNECTED /\ state t <> TU_RINGING
                  /\ state t <> TU_RING_BACK) then
         tu_hangup tu ;;;
         tu_unref a
       else
         tu_hangup tu ;;;
         ret tt) ;;;
      set_registry (<[i := None]> reg) ;;;
      ret 0
  | None => ret (-1)
  end.

(** The inner loop of [pbx_dial] over the slots [j], [j+1], ... *)
Fixpoint pbx_dial_scan (tu : option addr) (ext : Z)
    (slots : list (option addr)) : M Z :=
  match slots with
  | [] =>
      tu_dial tu None ;;;
      ret 0
  | slot :: rest =>
      n <- tu_fileno slot ;;
      if decide (n = ext) then
        tu_dial tu slot ;;;
        ret 0
      else
        pbx_dial_scan tu ext rest
  end.

Definition pbx_dial (tu : option addr) (ext : Z) : M Z :=
  reg <- get_registry ;;
  match list_find (fun slot : option addr => slot = tu) reg with
  | Some _ => pbx_dial_scan tu ext reg
  | None => ret (-1)
  end.

(** ** [server.c]: the command dispatcher of [pbx_client_service] *)

(** [atoi]: glibc's [(int) strtol(nptr, NULL, 10)] with a 64-bit [long] and a
    32-bit [int]: white space is skipped, one sign is accepted, the longest run
    of digits is read, the value is clamped to [long] and cut to [int]. *)
Definition isspace (c : ascii) : bool :=
  let n := nat_of_ascii c in
  (Nat.eqb n 32 || (Nat.leb 9 n && Nat.leb n 13))%bool.

Definition digit_value (c : ascii) : option Z :=
  let n := nat_of_ascii c in
  if (Nat.leb 48 n && Nat.leb n 57)%bool then Some (Z.of_nat n - 48) else None.

Fixpoint skip_spaces (s : string) : string :=
  match s with
  | String c r => if isspace c then skip_spaces r else s
  | EmptyString => s
  end.

Fixpoint read_digits (s : string) (acc : Z) : Z :=
  match s with
  | String c r =>
      match digit_value c with
      | Some d => read_digits r (10 * acc + d)
      | None => acc
      end
  | EmptyString => acc
  end.

Definition clamp_long (z : Z) : Z :=
  Z.max (- 2 ^ 63) (Z.min (2 ^ 63 - 1) z).

Definition to_int (z : Z) : Z :=
  (z + 2 ^ 31) mod 2 ^ 32 - 2 ^ 31.

Definition strtol (nptr : string) : Z :=
  match skip_spaces nptr with
  | String "-" r => clamp_long (- read_digits r 0)
  | String "+" r => clamp_long (read_digits r 0)
  | s => clamp_long (read_digits s 0)
  end.

Definition atoi (nptr : string) : Z := to_int (strtol nptr).

(** The text before the first space and the text after it. *)
Fixpoint split_space (s : string) : option (string * string) :=
  match s with
  | EmptyString => None
  | String c r =>
      if Ascii.eqb c " " then Some (EmptyString, r)
      else match split_space r with
           | Some (x, y) => Some (String c x, y)
           | None => None
           end
  end.

(** The outcome of the tokenising loop: [argc] and the filled part of
    [argv].  With [argc = 3] nothing is stored in [argv]. *)
Inductive args : Type :=
  | Args1 (argv0 : string)
  | Args2 (argv0 argv1 : string)
  | Args3.

(** The loop cuts [client_msg] at its first space.  It stops there when the
    rest is empty or the first word is [chat]; otherwise a second space raises
    [argc] to 3. *)
Definition tokenize (client_msg : string) : args :=
  match split_space client_msg with
  | None => Args1 client_msg
  | Some (argv0, rest) =>
      match rest with
      | EmptyString => Args2 argv0 rest
      | _ =>
          if String.eqb argv0 "chat" then Args2 argv0 rest
          else match split_space rest with
               | None => Args2 argv0 rest
               | Some _ => Args3
               end
      end
  end.

(** The [if] chain on [argc] and [argv[0]].  With [argc = 3] the last test
    reads the uninitialised [argv[0]]. *)
Definition dispatch (tu : option addr) (client_msg : string) : M unit :=
  match tokenize client_msg with
  | Args1 argv0 =>
      if String.eqb argv0 "pickup" then tu_pickup tu ;;; ret tt
      else if String.eqb argv0 "hangup" then tu_hangup tu ;;; ret tt
      else if String.eqb argv0 "chat" then tu_chat tu EmptyString ;;; ret tt
      else ret tt
  | Args2 argv0 argv1 =>
      if String.eqb argv0 "dial" then pbx_dial tu (atoi argv1) ;;; ret tt
      else if String.eqb argv0 "chat" then tu_chat tu argv1 ;;; ret tt
      else ret tt
  | Args3 => fail
  end.

(** The prologue of [pbx_client_service]: [tu_init] then [pbx_register] on the
    connection's descriptor. *)
Definition service_start (connfd : Z) : M (option addr) :=
  a <- tu_init connfd ;;
  r <- pbx_register (Some a) connfd ;;
  if decide (r = -1) then close connfd ;;; ret None
  else ret (Some a).

(** Its epilogue, after the read loop has ended. *)
Definition service_stop (connfd : Z) (a : addr) : M unit :=
  close connfd ;;;
  pbx_unregister (Some a) ;;;
  ret tt.

(** ** Running client sessions *)

(** What a client can make its service thread do. *)
Inductive action : Type :=
  | Connect (connfd : Z)
  | Line (a : addr) (client_msg : string)
  | Disconnect (connfd : Z) (a : addr).

Definition registered (a : addr) (w : world) : Prop :=
  Some a ∈ registry w.

(** A descriptor returned by [accept] is not negative and is not one that a
    registered unit still uses. *)
Definition fd_in_use (d : Z) (w : world) : Prop :=
  exists a t, registered a w /\ heap w !! a = Some t /\ fd t = d.

Inductive step : world -> action -> world -> Prop :=
  | step_connect w connfd r w' :
      0 <= connfd ->
      ~ fd_in_use connfd w ->
      service_start connfd w = Some (r, w') ->
      step w (Connect connfd) w'
  | step_line w a client_msg w' :
      registered a w ->
      dispatch (Some a) client_msg w = Some (tt, w') ->
      step w (Line a client_msg) w'
  | step_disconnect w a t w' :
      registered a w ->
      heap w !! a = Some t ->
      service_stop (fd t) a w = Some (tt, w') ->
      step w (Disconnect (fd t) a) w'.

Inductive reachable (n : nat) : world -> Prop :=
  | reachable_init : reachable n (pbx_init n)
  | reachable_step w act w' :
      reachable n w -> step w act w' -> reachable n w'.




(** ** Properties of worlds *)

Definition paired_state (s : tu_state) : Prop :=
  s = TU_RINGING \/ s = TU_RING_BACK \/ s = TU_CONNECTED.

Definition allowed_pair (s1 s2 : tu_state) : Prop :=
  (s1 = TU_RING_BACK /\ s2 = TU_RINGING) \/
  (s1 = TU_RINGING /\ s2 = TU_RING_BACK) \/
  (s1 = TU_CONNECTED /\ s2 = TU_CONNECTED).

(** State-peer consistency, for every allocated unit. *)
Definition state_peer_consistent (w : world) : Prop :=
  forall a t, heap w !! a = Some t ->
    (target t <> None <-> paired_state (state t)) /\
    (forall b, target t = Some b ->
       exists u, heap w !! b = Some u /\ allowed_pair (state t) (state u)).




(** Every slot in use holds an allocated unit whose descriptor came from
    [accept], so is not negative. *)
Definition registry_live (h : gmap positive tu) (reg : list (option addr)) : Prop :=
  forall b, Some b ∈ reg -> exists u, h !! b = Some u /\ 0 <= fd u.

(** The unit's [CONNECTED] line needs its peer. *)
Definition peer_readable (w : world) (t : tu) : Prop :=
  state t = TU_CONNECTED ->
  exists p u, target t = Some p /\ heap w !! p = Some u.

(** Every unit of [w'] was a unit of [w] with the same descriptor. *)
Definition fd_kept (w w' : world) : Prop :=
  forall b u', heap w' !! b = Some u' ->
    exists u, heap w !! b = Some u /\ fd u = fd u'.

Definition keeps_fd {A} (c : M A) : Prop :=
  forall w x w', c w = Some (x, w') -> fd_kept w w'.

(** The specification's reading of extension lookup, to be compared with the
    loop of [pbx_dial]: the first registered unit whose descriptor is the
    dialled number, if any. *)
Definition spec_lookup_extension (h : gmap positive tu) (ext : Z)
    (reg : list (option addr)) : option addr :=
  head (filter (fun b => fd <$> h !! b = Some ext) (omap id reg)).

(** A well-formed decimal integer as the grammar has it: one or more digits. *)
Definition well_formed_decimal (s : string) : bool :=
  match s with
  | EmptyString => false
  | _ => forallb (fun c => bool_decide (is_Some (digit_value c)))
                 (list_ascii_of_string s)
  end.

(** ** Example worlds *)

(** A unit on descriptor 4, on hook, alone in a one-slot registry. *)
Definition ex_tu_on_hook : tu := mkTU 4 None TU_ON_HOOK 1.

Definition ex_world_on_hook : world :=
  mkWorld {[1%positive := ex_tu_on_hook]} [Some 1%positive] [].

(** The same unit just made by [tu_init 4], before registration. *)
Definition ex_world_fresh : world :=
  mkWorld {[1%positive := ex_tu_on_hook]} [None; None] [].

(** Two units on descriptors 4 and 5 in a call. *)
Definition ex_tu_conn_4 : tu := mkTU 4 (Some 2%positive) TU_CONNECTED 2.
Definition ex_tu_conn_5 : tu := mkTU 5 (Some 1%positive) TU_CONNECTED 2.

Definition ex_world_connected : world :=
  mkWorld (<[2%positive := ex_tu_conn_5]> {[1%positive := ex_tu_conn_4]})
          [Some 1%positive; Some 2%positive] [].

(** A session on a registry of [2 + k] slots.  Two clients connect on
    descriptors 4 and 5; the first picks up and dials 5; then the second,
    which is ringing, dials its own number.  The worlds after each step: *)
Definition ex_registry (k : nat) : list (option addr) :=
  Some 1%positive :: Some 2%positive :: replicate k None.

Definition ex_w1 (k : nat) : world :=
  mkWorld {[1%positive := mkTU 4 None TU_ON_HOOK 1]}
          (Some 1%positive :: None :: replicate k None)
          [Wr 4 (line_ON_HOOK 4)].

Definition ex_w2 (k : nat) : world :=
  mkWorld (<[2%positive := mkTU 5 None TU_ON_HOOK 1]>
             {[1%positive := mkTU 4 None TU_ON_HOOK 1]})
          (ex_registry k)
          [Wr 4 (line_ON_HOOK 4); Wr 5 (line_ON_HOOK 5)].

Definition ex_tu_dial_tone : tu := mkTU 4 None TU_DIAL_TONE 1.

Definition ex_w3 (k : nat) : world :=
  mkWorld (<[2%positive := mkTU 5 None TU_ON_HOOK 1]>
             {[1%positive := ex_tu_dial_tone]})
          (ex_registry k)
          [Wr 4 (line_ON_HOOK 4); Wr 5 (line_ON_HOOK 5); Wr 4 line_DIAL_TONE].

Definition ex_w4 (k : nat) : world :=
  mkWorld (<[2%positive := mkTU 5 (Some 1%positive) TU_RINGING 2]>
             {[1%positive := mkTU 4 (Some 2%positive) TU_RING_BACK 2]})
          (ex_registry k)
          [Wr 4 (line_ON_HOOK 4); Wr 5 (line_ON_HOOK 5); Wr 4 line_DIAL_TONE;
           Wr 4 line_RING_BACK; Wr 5 line_RINGING].

Definition ex_w5 (k : nat) : world :=
  mkWorld (<[2%positive := mkTU 5 (Some 1%positive) TU_BUSY_SIGNAL 2]>
             {[1%positive := mkTU 4 (Some 2%positive) TU_RING_BACK 2]})
          (ex_registry k)
          [Wr 4 (line_ON_HOOK 4); Wr 5 (line_ON_HOOK 5); Wr 4 line_DIAL_TONE;
           Wr 4 line_RING_BACK; Wr 5 line_RINGING; Wr 5 line_BUSY_SIGNAL].

(** ** Further definitions *)

(** The heap after [tu_unref] of the unit [t'] at [a]: the unit is gone when
    its count was 1. *)
Definition after_unref (a : addr) (t' : tu) (h : gmap positive tu)
    : gmap positive tu :=
  if decide (ref_count t' - 1 = 0) then delete a h
  else <[a := mkTU (fd t') (target t') (state t') (ref_count t' - 1)]> h.

(** What [tu_unref] of [t'] does to descriptors. *)
Definition closes (t' : tu) : list event :=
  if decide (ref_count t' - 1 = 0) then [Cl (fd t')] else [].

(** The call of [ex_world_connected] and a third unit, on descriptor 6, that
    has picked up. *)
Definition ex_tu_third : tu := mkTU 6 None TU_DIAL_TONE 1.

Definition ex_world_three : world :=
  mkWorld (<[3%positive := ex_tu_third]>
             (<[2%positive := ex_tu_conn_5]> {[1%positive := ex_tu_conn_4]}))
          [Some 1%positive; Some 2%positive; Some 3%positive] [].

(** The [ON HOOK] line that [tu_hangup] writes for a unit without a call:
    none when the unit is already on hook. *)
Definition idle_hangup_lines (t : tu) : list event :=
  if decide (state t = TU_ON_HOOK) then []
  else [Wr (fd t) (line_ON_HOOK (fd t))].

(** *** [server.c]: reading lines *)

Definition CR : ascii := "013"%char.
Definition LF : ascii := "010"%char.

(** What one [read(fd, &static_buf, 1)] gives: a byte, or -1.  The input of a
    connection is the list of these results; once the list is used up every
    [read] returns 0, the end of file. *)
Inductive read_result : Type :=
  | RByte (c : ascii)
  | RError.

(** The loop of [read_client_msg]; [stream] is what has been printed to the
    memory stream so far.  After a CR the next byte is read at once: a LF ends
    the line, any other byte is stored after the CR.  At the end of file
    [static_buf] still holds the CR, which is stored twice before the next
    [read] returns 0 again and the function gives up. *)
Fixpoint read_loop (stream : string) (input : list read_result)
    : option (string * list read_result) :=
  match input with
  | [] => None
  | RError :: _ => None
  | RByte c :: rest =>
      if Ascii.eqb c CR then
        match rest with
        | [] => None
        | RError :: _ => None
        | RByte c2 :: rest2 =>
            if Ascii.eqb c2 LF then Some (stream, rest2)
            else read_loop (stream ++ String CR (String c2 EmptyString)) rest2
        end
      else read_loop (stream ++ String c EmptyString) rest
  end.

(** [read_client_msg]: the buffer it returns and the input left unread, or
    [None] for [NULL]. *)
Definition read_client_msg (input : list read_result)
    : option (string * list read_result) :=
  read_loop EmptyString input.

(** The text a C function sees in a buffer: the bytes before the first NUL. *)
Fixpoint c_str (buf : string) : string :=
  match buf with
  | EmptyString => EmptyString
  | String c r => if Ascii.eqb c "000" then EmptyString else String c (c_str r)
  end.

(** The bytes of a text as successful reads. *)
Definition bytes (s : string) : list read_result :=
  map RByte (list_ascii_of_string s).

Definition no_cr (s : string) : Prop := CR ∉ list_ascii_of_string s.

(** *** [server.c]: the service loop *)

Lemma read_loop_shorter stream input line rest :
  read_loop stream input = Some (line, rest) ->
  (length rest < length input)%nat.
Proof.
  revert stream.
  induction input as [input IH] using (induction_ltof1 _ (@length _)).
  unfold ltof in IH. intros stream H.
  destruct input as [|[c|] input1]; [discriminate|simpl in H|discriminate].
  destruct (Ascii.eqb c CR).
  - destruct input1 as [|[c2|] input2]; [discriminate|simpl in H|discriminate].
    destruct (Ascii.eqb c2 LF).
    + inversion H; subst. simpl. lia.
    + apply IH in H; simpl in *; lia.
  - apply IH in H; simpl in *; lia.
Qed.

(** A value together with the equation that says what it is. *)
Definition inspect {A : Type} (x : A) : {y : A | x = y} := exist _ x eq_refl.

(** The [while (1)] loop of [pbx_client_service]: read a line, dispatch it,
    and go on with the input that is left, until [read_client_msg] returns
    [NULL].  The dispatcher works on the buffer as a C string.  Each line
    leaves less input, which is why the loop ends. *)
Equations service_loop (tu : option addr) (input : list read_result) : M unit
  by wf (length input) lt :=
service_loop tu input with inspect (read_client_msg input) := {
  | exist _ (Some (client_msg, rest)) H =>
      dispatch tu (c_str client_msg) ;;; service_loop tu rest
  | exist _ None _ => ret tt }.
Next Obligation.
  eapply read_loop_shorter. exact H.
Qed.

(** [pbx_client_service] on a connection whose input is [input]. *)
Definition pbx_client_service (connfd : Z) (input : list read_result) : M unit :=
  r <- service_start connfd ;;
  match r with
  | None => ret tt
  | Some a =>
      service_loop (Some a) input ;;;
      service_stop connfd a
  end.

Definition no_nul (s : string) : Prop := "000"%char ∉ list_ascii_of_string s.

(** *** Reference counts and live slots *)






(** *** [main.c]: option processing *)

Fixpoint skip_digits (s : string) : string :=
  match s with
  | String c r =>
      match digit_value c with
      | Some _ => skip_digits r
      | None => s
      end
  | EmptyString => s
  end.

(** Where [strtol(nptr, &endptr, 10)] leaves [endptr]: behind the digits it
    has read, or at [nptr] itself, which is [None] here, when there is no
    digit after the white space and the sign. *)
Definition strtol_endptr (nptr : string) : option string :=
  let body := match skip_spaces nptr with
              | String "-" r => r
              | String "+" r => r
              | s => s
              end in
  match body with
  | String c _ =>
      match digit_value c with
      | Some _ => Some (skip_digits body)
      | None => None
      end
  | EmptyString => None
  end.

(** How [main] goes on after its option processing: it prints the usage
    line and exits with [EXIT_FAILURE], or it listens on [port]. *)
Inductive startup : Type :=
  | Usage
  | Listen (port : string).

Definition main_options (argv : list string) : startup :=
  match argv with
  | [_; opt; arg] =>
      if String.eqb opt "-p" then
        match strtol_endptr arg with
        | Some EmptyString => Listen arg
        | _ => Usage
        end
      else Usage
  | _ => Usage
  end.

(** * Proofs *)

(** ** Executing the primitives *)

Lemma bind_Some {A B} (c : M A) (k : A -> M B) w x w' :
  c w = Some (x, w') -> bind c k w = k x w'.
Proof. intros H. unfold bind. rewrite H. reflexivity. Qed.

Lemma bind_inv {A B} (c : M A) (k : A -> M B) w y w2 :
  bind c k w = Some (y, w2) ->
  exists x w1, c w = Some (x, w1) /\ k x w1 = Some (y, w2).
Proof.
  unfold bind. destruct (c w) as [[x w1]|]; [|discriminate].
  intros H. exists x, w1. auto.
Qed.

Lemma load_Some w a t : heap w !! a = Some t -> load a w = Some (t, w).
Proof. intros H. unfold load. rewrite H. reflexivity. Qed.

Lemma tu_eta t : mkTU (fd t) (target t) (state t) (ref_count t) = t.
Proof. destruct t; reflexivity. Qed.

Section steps.
Context {B : Type} (k : unit -> M B).

Lemma run_set_state w a t s :
  heap w !! a = Some t ->
  bind (set_state a s) k w =
    k tt (mkWorld (<[a := mkTU (fd t) (target t) s (ref_count t)]> (heap w))
                  (registry w) (out w)).
Proof. intros H. unfold set_state, bind, load, store. rewrite H. reflexivity. Qed.

Lemma run_set_target w a t p :
  heap w !! a = Some t ->
  bind (set_target a p) k w =
    k tt (mkWorld (<[a := mkTU (fd t) p (state t) (ref_count t)]> (heap w))
                  (registry w) (out w)).
Proof. intros H. unfold set_target, bind, load, store. rewrite H. reflexivity. Qed.

Lemma run_dprintf w d line :
  bind (dprintf d line) k w =
    k tt (mkWorld (heap w) (registry w) (out w ++ [Wr d line])).
Proof. reflexivity. Qed.

Lemma run_tu_ref w a t :
  heap w !! a = Some t ->
  bind (tu_ref a) k w =
    k tt (mkWorld (<[a := mkTU (fd t) (target t) (state t) (ref_count t + 1)]>
                     (heap w)) (registry w) (out w)).
Proof.
  intros H. unfold tu_ref, set_ref_count, bind, load, store. rewrite H.
  simpl. rewrite H. reflexivity.
Qed.

(** [tu_unref] frees the unit when the count reaches zero. *)
Lemma run_tu_unref w a t :
  heap w !! a = Some t ->
  bind (tu_unref a) k w =
    k tt (if decide (ref_count t - 1 = 0)
          then mkWorld (delete a (heap w)) (registry w) (out w ++ [Cl (fd t)])
          else mkWorld (<[a := mkTU (fd t) (target t) (state t) (ref_count t - 1)]>
                          (heap w)) (registry w) (out w)).
Proof.
  intros H. unfold tu_unref, set_ref_count, bind, load, store, close, emit, free, ret.
  rewrite H. simpl. rewrite H. simpl. rewrite lookup_insert_eq. simpl.
  destruct (decide (ref_count t - 1 = 0)); [|reflexivity].
  simpl. rewrite delete_insert_eq. reflexivity.
Qed.
End steps.

Lemma run_load {B} (k : tu -> M B) w a t :
  heap w !! a = Some t -> bind (load a) k w = k t w.
Proof. intros H. unfold bind, load. rewrite H. reflexivity. Qed.

Lemma run_P_second {B} (k : tu -> M B) w a q u :
  q <> a -> heap w !! q = Some u -> bind (P_second a q) k w = k u w.
Proof.
  intros Hne H. unfold bind, P_second. rewrite decide_False by exact Hne.
  unfold load. rewrite H. reflexivity.
Qed.

Lemma run_deref {B} (k : positive -> M B) w a :
  bind (deref (Some a)) k w = k a w.
Proof. reflexivity. Qed.

(** Reading a field of a heap that was built by updates. *)
Ltac heap_lookup :=
  cbn [heap registry out];
  repeat first [ rewrite lookup_insert_eq
               | rewrite lookup_insert_ne by congruence
               | rewrite lookup_delete_ne by congruence ];
  first [ eassumption | reflexivity ].

(** One statement of a C function. *)
Ltac run_step :=
  first [ rewrite run_deref
        | rewrite run_dprintf
        | erewrite run_load by heap_lookup
        | erewrite run_set_state by heap_lookup
        | erewrite run_set_target by heap_lookup
        | erewrite run_tu_ref by heap_lookup
        | erewrite run_tu_unref by heap_lookup ];
  cbn [heap registry out fd target state ref_count].


(** ** What single calls do *)

Lemma tu_dial_self w a t :
  heap w !! a = Some t ->
  tu_dial (Some a) (Some a) w =
    Some (0, mkWorld
               (<[a := mkTU (fd t) (target t) TU_BUSY_SIGNAL (ref_count t)]> (heap w))
               (registry w)
               (out w ++ [Wr (fd t) line_BUSY_SIGNAL])).
Proof.
  intros H. unfold tu_dial. run_step.
  rewrite decide_True by reflexivity. repeat run_step. reflexivity.
Qed.

Lemma tu_dial_null_dial_tone w a t :
  heap w !! a = Some t ->
  state t = TU_DIAL_TONE ->
  tu_dial (Some a) None w =
    Some (-1, mkWorld
                (<[a := mkTU (fd t) (target t) TU_ERROR (ref_count t)]> (heap w))
                (registry w)
                (out w ++ [Wr (fd t) line_ERROR])).
Proof.
  intros Ha Hs. unfold tu_dial. run_step.
  rewrite decide_True by exact Hs. repeat run_step. reflexivity.
Qed.

Lemma report_dial_Some w a t :
  heap w !! a = Some t ->
  state t <> TU_DIAL_TONE ->
  peer_readable w t ->
  exists line,
    report_dial a (state t) w =
      Some (tt, mkWorld (heap w) (registry w) (out w ++ [Wr (fd t) line])).
Proof.
  intros Ha Hs Hp. unfold peer_readable in Hp.
  destruct (state t) eqn:E; try congruence;
    unfold report_dial, report;
    rewrite (run_load _ _ _ _ Ha);
    try (eexists; reflexivity).
  destruct Hp as (p & u & Ht & Hu); [reflexivity|].
  rewrite Ht. run_step. rewrite (run_load _ _ _ _ Hu).
  eexists; reflexivity.
Qed.

Lemma tu_dial_null_other w a t :
  heap w !! a = Some t ->
  state t <> TU_DIAL_TONE ->
  peer_readable w t ->
  exists line,
    tu_dial (Some a) None w =
      Some (0, mkWorld (heap w) (registry w) (out w ++ [Wr (fd t) line])).
Proof.
  intros Ha Hs Hp. unfold tu_dial. run_step.
  rewrite decide_False by exact Hs.
  destruct (report_dial_Some _ _ _ Ha Hs Hp) as [line Hl].
  exists line. rewrite (bind_Some _ _ _ _ _ Hl). reflexivity.
Qed.

Lemma tu_pickup_on_hook w a t :
  heap w !! a = Some t ->
  state t = TU_ON_HOOK ->
  tu_pickup (Some a) w =
    Some (0, mkWorld
               (<[a := mkTU (fd t) (target t) TU_DIAL_TONE (ref_count t)]> (heap w))
               (registry w)
               (out w ++ [Wr (fd t) line_DIAL_TONE])).
Proof.
  intros Ha Hs. unfold tu_pickup. run_step. rewrite Hs.
  rewrite decide_False by (intros [E _]; apply E; reflexivity).
  rewrite decide_True by reflexivity. repeat run_step. reflexivity.
Qed.

Lemma tu_hangup_on_hook w a t :
  heap w !! a = Some t ->
  state t = TU_ON_HOOK ->
  tu_hangup (Some a) w = Some (0, w).
Proof.
  intros Ha Hs. unfold tu_hangup. run_step. rewrite Hs.
  rewrite decide_False by (intros [?|?]; discriminate).
  rewrite decide_False by discriminate.
  rewrite decide_False by (intros [?|[?|?]]; discriminate).
  reflexivity.
Qed.

Lemma tu_hangup_unpaired w a t :
  heap w !! a = Some t ->
  state t = TU_DIAL_TONE \/ state t = TU_BUSY_SIGNAL \/ state t = TU_ERROR ->
  tu_hangup (Some a) w =
    Some (0, mkWorld
               (<[a := mkTU (fd t) (target t) TU_ON_HOOK (ref_count t)]> (heap w))
               (registry w)
               (out w ++ [Wr (fd t) (line_ON_HOOK (fd t))])).
Proof.
  intros Ha Hs. unfold tu_hangup. run_step.
  rewrite decide_False by (destruct Hs as [E|[E|E]]; rewrite E; intros [?|?]; discriminate).
  rewrite decide_False by (destruct Hs as [E|[E|E]]; rewrite E; discriminate).
  rewrite decide_True by exact Hs. repeat run_step. reflexivity.
Qed.

Lemma tu_chat_not_connected w a t msg :
  heap w !! a = Some t ->
  state t <> TU_CONNECTED ->
  tu_chat (Some a) msg w = Some (-1, w).
Proof.
  intros Ha Hs. unfold tu_chat. run_step.
  rewrite decide_True by exact Hs. reflexivity.
Qed.

Lemma tu_chat_connected w a t p u msg :
  heap w !! a = Some t ->
  state t = TU_CONNECTED ->
  target t = Some p ->
  p <> a ->
  heap w !! p = Some u ->
  tu_chat (Some a) msg w =
    Some (0, mkWorld (heap w) (registry w)
                     (out w ++ [Wr (fd u) (line_chat msg);
                                Wr (fd t) (line_CONNECTED (fd u))])).
Proof.
  intros Ha Hs Ht Hne Hp. unfold tu_chat. run_step.
  rewrite decide_False by (rewrite Hs; intros E; apply E; reflexivity).
  rewrite Ht. run_step. rewrite (run_P_second _ _ _ _ _ Hne Hp).
  run_step. rewrite Hs. unfold report, bind, dprintf, emit, load, ret. simpl.
  rewrite Ha, Ht. simpl. rewrite Hp. cbn [heap registry out].
  rewrite <- app_assoc. reflexivity.
Qed.

Lemma pbx_register_unfold w tu ext :
  pbx_register tu ext w =
    match list_find (fun slot : option addr => slot = None) (registry w) with
    | Some (i, _) =>
        Some (0, mkWorld (heap w) (<[i := tu]> (registry w))
                         (out w ++ [Wr ext (line_ON_HOOK ext)]))
    | None => Some (-1, w)
    end.
Proof.
  unfold pbx_register, bind, get_registry.
  destruct (list_find _ (registry w)) as [[i s]|]; reflexivity.
Qed.

Lemma service_start_Some connfd w a w' :
  service_start connfd w = Some (Some a, w') ->
  heap w' = <[a := mkTU connfd None TU_ON_HOOK 1]> (heap w) /\
  out w' = (out w ++ [Wr connfd (line_ON_HOOK connfd)])%list.
Proof.
  unfold service_start, tu_init. unfold bind at 1.
  unfold bind at 1. rewrite pbx_register_unfold. cbn [heap registry out].
  destruct (list_find _ (registry w)) as [[i s]|].
  - rewrite decide_False by discriminate. unfold ret.
    intros H. inversion H; subst. simpl. auto.
  - rewrite decide_True by reflexivity. unfold bind, close, emit, ret.
    intros H. inversion H.
Qed.

(** ** Descriptors are never reassigned

    [tu_set_extension] is the only function that writes [fd], and nothing
    calls it.  Every other function keeps the descriptor of every unit; the
    property composes along [bind]. *)

Lemma fd_kept_refl w : fd_kept w w.
Proof. intros b u H. eauto. Qed.

Lemma fd_kept_trans w1 w2 w3 : fd_kept w1 w2 -> fd_kept w2 w3 -> fd_kept w1 w3.
Proof.
  intros H12 H23 b u3 H3. destruct (H23 _ _ H3) as (u2 & H2 & E2).
  destruct (H12 _ _ H2) as (u1 & H1 & E1). exists u1. split; [exact H1|congruence].
Qed.

Lemma keeps_fd_ret {A} (x : A) : keeps_fd (ret x).
Proof. intros w y w' H. inversion H; subst. apply fd_kept_refl. Qed.

Lemma keeps_fd_fail {A} : keeps_fd (@fail A).
Proof. intros w y w' H. discriminate. Qed.

Lemma keeps_fd_bind {A B} (c : M A) (k : A -> M B) :
  keeps_fd c -> (forall x, keeps_fd (k x)) -> keeps_fd (bind c k).
Proof.
  intros Hc Hk w y w' H. unfold bind in H.
  destruct (c w) as [[x w1]|] eqn:E; [|discriminate].
  eapply fd_kept_trans; [eapply Hc, E|eapply Hk, H].
Qed.

Lemma keeps_fd_load a : keeps_fd (load a).
Proof.
  intros w y w' H. unfold load in H. destruct (heap w !! a); [|discriminate].
  inversion H; subst. apply fd_kept_refl.
Qed.

Lemma keeps_fd_emit e : keeps_fd (emit e).
Proof. intros w y w' H. inversion H; subst. intros b u Hb. eauto. Qed.

Lemma keeps_fd_free a : keeps_fd (free a).
Proof.
  intros w y w' H. inversion H; subst. intros b u Hb. simpl in Hb.
  apply lookup_delete_Some in Hb as [_ Hb]. eauto.
Qed.

Lemma keeps_fd_get_registry : keeps_fd get_registry.
Proof. intros w y w' H. inversion H; subst. apply fd_kept_refl. Qed.

Lemma keeps_fd_set_registry r : keeps_fd (set_registry r).
Proof. intros w y w' H. inversion H; subst. intros b u Hb. eauto. Qed.

Lemma keeps_fd_update a (f : tu -> tu) :
  (forall t, fd (f t) = fd t) ->
  keeps_fd (t <- load a ;; store a (f t)).
Proof.
  intros Hf w y w' H. unfold bind, load, store in H.
  destruct (heap w !! a) as [t|] eqn:Ha; [|discriminate].
  inversion H; subst. intros b u Hb. simpl in Hb.
  destruct (decide (a = b)) as [<-|Hne].
  - rewrite lookup_insert_eq in Hb. inversion Hb; subst. eauto.
  - rewrite lookup_insert_ne in Hb by exact Hne. eauto.
Qed.

Lemma keeps_fd_set_state a s : keeps_fd (set_state a s).
Proof.
  apply (keeps_fd_update a (fun t => mkTU (fd t) (target t) s (ref_count t))).
  reflexivity.
Qed.

Lemma keeps_fd_set_target a p : keeps_fd (set_target a p).
Proof.
  apply (keeps_fd_update a (fun t => mkTU (fd t) p (state t) (ref_count t))).
  reflexivity.
Qed.

Lemma keeps_fd_set_ref_count a n : keeps_fd (set_ref_count a n).
Proof.
  apply (keeps_fd_update a (fun t => mkTU (fd t) (target t) (state t) n)).
  reflexivity.
Qed.

Create HintDb keeps_fd.
#[local] Hint Resolve keeps_fd_ret keeps_fd_fail keeps_fd_load keeps_fd_emit
  keeps_fd_free keeps_fd_get_registry keeps_fd_set_registry keeps_fd_set_state
  keeps_fd_set_target keeps_fd_set_ref_count : keeps_fd.

(** Follow the shape of the function: sequencing, then branching. *)
Ltac keeps_fd_tac :=
  repeat first
    [ progress auto with keeps_fd
    | apply keeps_fd_bind; [|intros ?]
    | match goal with
      | |- keeps_fd (if ?c then _ else _) => destruct c
      | |- keeps_fd (match ?x with _ => _ end) => destruct x
      end ].

Lemma keeps_fd_deref p : keeps_fd (deref p).
Proof. unfold deref. keeps_fd_tac. Qed.

Lemma keeps_fd_dprintf d line : keeps_fd (dprintf d line).
Proof. apply keeps_fd_emit. Qed.

Lemma keeps_fd_close d : keeps_fd (close d).
Proof. apply keeps_fd_emit. Qed.

Lemma keeps_fd_P_second a q : keeps_fd (P_second a q).
Proof. unfold P_second. keeps_fd_tac. Qed.

#[local] Hint Resolve keeps_fd_deref keeps_fd_dprintf keeps_fd_close
  keeps_fd_P_second : keeps_fd.

Lemma keeps_fd_report a s : keeps_fd (report a s).
Proof. unfold report. keeps_fd_tac. Qed.

Lemma keeps_fd_tu_ref a : keeps_fd (tu_ref a).
Proof. unfold tu_ref. keeps_fd_tac. Qed.

Lemma keeps_fd_tu_unref a : keeps_fd (tu_unref a).
Proof. unfold tu_unref. keeps_fd_tac. Qed.

Lemma keeps_fd_tu_fileno tu : keeps_fd (tu_fileno tu).
Proof. unfold tu_fileno. keeps_fd_tac. Qed.

#[local] Hint Resolve keeps_fd_report keeps_fd_tu_ref keeps_fd_tu_unref
  keeps_fd_tu_fileno : keeps_fd.

Lemma keeps_fd_tu_dial tu callee : keeps_fd (tu_dial tu callee).
Proof. unfold tu_dial, report_dial. keeps_fd_tac. Qed.

Lemma keeps_fd_tu_pickup tu : keeps_fd (tu_pickup tu).
Proof. unfold tu_pickup, report_pickup. keeps_fd_tac. Qed.

Lemma keeps_fd_tu_hangup tu : keeps_fd (tu_hangup tu).
Proof. unfold tu_hangup. keeps_fd_tac. Qed.

Lemma keeps_fd_tu_chat tu msg : keeps_fd (tu_chat tu msg).
Proof. unfold tu_chat. keeps_fd_tac. Qed.

#[local] Hint Resolve keeps_fd_tu_dial keeps_fd_tu_pickup keeps_fd_tu_hangup
  keeps_fd_tu_chat : keeps_fd.

Lemma keeps_fd_pbx_dial_scan tu ext slots : keeps_fd (pbx_dial_scan tu ext slots).
Proof. induction slots; cbn [pbx_dial_scan]; keeps_fd_tac. Qed.

#[local] Hint Resolve keeps_fd_pbx_dial_scan : keeps_fd.

Lemma keeps_fd_pbx_dial tu ext : keeps_fd (pbx_dial tu ext).
Proof. unfold pbx_dial. keeps_fd_tac. Qed.

#[local] Hint Resolve keeps_fd_pbx_dial : keeps_fd.

Lemma keeps_fd_dispatch tu client_msg : keeps_fd (dispatch tu client_msg).
Proof. unfold dispatch. keeps_fd_tac. Qed.

Lemma keeps_fd_pbx_unregister tu : keeps_fd (pbx_unregister tu).
Proof. unfold pbx_unregister. keeps_fd_tac. Qed.

(** ** The loop of [pbx_dial] against the specification's lookup *)

Lemma registry_live_tail h slot reg :
  registry_live h (slot :: reg) -> registry_live h reg.
Proof. intros H b Hb. apply H. apply list_elem_of_further, Hb. Qed.

Lemma spec_lookup_extension_Some h ext reg b :
  spec_lookup_extension h ext reg = Some b ->
  Some b ∈ reg /\ fd <$> h !! b = Some ext.
Proof.
  unfold spec_lookup_extension. intros H.
  apply head_Some_elem_of, list_elem_of_filter in H as [Hfd Hb].
  split; [|exact Hfd].
  apply list_elem_of_omap in Hb as (slot & Hs & E). simpl in E. subst slot.
  exact Hs.
Qed.

Lemma spec_lookup_extension_None h ext reg b :
  spec_lookup_extension h ext reg = None ->
  Some b ∈ reg -> fd <$> h !! b <> Some ext.
Proof.
  unfold spec_lookup_extension. intros H Hb Hfd.
  apply head_None in H.
  assert (Hin : b ∈ filter (fun b => fd <$> h !! b = Some ext) (omap id reg)).
  { apply list_elem_of_filter. split; [exact Hfd|].
    apply list_elem_of_omap. exists (Some b). auto. }
  rewrite H in Hin. inversion Hin.
Qed.

(** The number -1, which [tu_fileno] gives for an empty slot, is nobody's
    descriptor. *)
Lemma spec_lookup_negative h reg :
  registry_live h reg -> spec_lookup_extension h (-1) reg = None.
Proof.
  unfold spec_lookup_extension. induction reg as [|[b|] reg IH]; intros Hl.
  - reflexivity.
  - simpl. destruct (Hl b (list_elem_of_here _ _)) as (u & Hu & Hfd).
    rewrite filter_cons_False.
    + apply IH. eapply registry_live_tail, Hl.
    + rewrite Hu. simpl. intros E. inversion E. lia.
  - simpl. apply IH. eapply registry_live_tail, Hl.
Qed.

Lemma pbx_dial_scan_spec tu ext reg w :
  registry_live (heap w) reg ->
  pbx_dial_scan tu ext reg w =
    (tu_dial tu (spec_lookup_extension (heap w) ext reg) ;;; ret 0) w.
Proof.
  induction reg as [|[b|] reg IH]; intros Hl.
  - reflexivity.
  - destruct (Hl b (list_elem_of_here _ _)) as (u & Hu & Hfd).
    cbn [pbx_dial_scan]. unfold tu_fileno.
    unfold bind at 1. rewrite (run_load _ _ _ _ Hu).
    unfold ret at 1. unfold spec_lookup_extension. simpl omap.
    destruct (decide (fd u = ext)) as [E|E].
    + rewrite filter_cons_True by (rewrite Hu; simpl; congruence).
      reflexivity.
    + rewrite filter_cons_False by (rewrite Hu; simpl; congruence).
      apply IH. eapply registry_live_tail, Hl.
  - cbn [pbx_dial_scan]. unfold tu_fileno.
    unfold bind at 1. unfold ret at 1.
    destruct (decide (-1 = ext)) as [E|E].
    + subst ext. rewrite (spec_lookup_negative _ _ Hl). reflexivity.
    + unfold spec_lookup_extension. simpl omap.
      apply IH. eapply registry_live_tail, Hl.
Qed.

Lemma pbx_dial_spec a ext w :
  registered a w ->
  registry_live (heap w) (registry w) ->
  pbx_dial (Some a) ext w =
    (tu_dial (Some a) (spec_lookup_extension (heap w) ext (registry w)) ;;; ret 0) w.
Proof.
  intros Hr Hl. unfold pbx_dial. unfold bind at 1. unfold get_registry.
  destruct (list_find _ (registry w)) as [[i s]|] eqn:Hf.
  - apply pbx_dial_scan_spec, Hl.
  - exfalso. apply list_find_None in Hf.
    rewrite Forall_forall in Hf. apply (Hf _ Hr). reflexivity.
Qed.

Lemma tokenize_dial arg :
  split_space arg = None ->
  tokenize ("dial " ++ arg) = Args2 "dial" arg.
Proof.
  intros H. destruct arg as [|c r]; [reflexivity|].
  unfold tokenize. simpl in H |- *. rewrite H. reflexivity.
Qed.

Lemma dispatch_dial tu arg w :
  split_space arg = None ->
  dispatch tu ("dial " ++ arg) w = (pbx_dial tu (atoi arg) ;;; ret tt) w.
Proof. intros H. unfold dispatch. rewrite (tokenize_dial _ H). reflexivity. Qed.

(** ** Peer consistency is kept by every call but a stray self dial

    Each function is run on a world whose units are consistent; the units it
    touches are the caller and its peer, and they end paired in an allowed
    shape or idle. *)





























(** ** The example session *)

Lemma ex_start_4 k :
  service_start 4 (pbx_init (S (S k))) = Some (Some 1%positive, ex_w1 k).
Proof. vm_compute. reflexivity. Qed.

Lemma ex_start_5 k : service_start 5 (ex_w1 k) = Some (Some 2%positive, ex_w2 k).
Proof. vm_compute. reflexivity. Qed.

Lemma ex_pickup_4 k : dispatch (Some 1%positive) "pickup" (ex_w2 k) = Some (tt, ex_w3 k).
Proof. vm_compute. reflexivity. Qed.

Lemma ex_dial_4_5 k : dispatch (Some 1%positive) "dial 5" (ex_w3 k) = Some (tt, ex_w4 k).
Proof. vm_compute. reflexivity. Qed.

Lemma ex_dial_5_5 k : dispatch (Some 2%positive) "dial 5" (ex_w4 k) = Some (tt, ex_w5 k).
Proof. vm_compute. reflexivity. Qed.

Lemma ex_registered_1 k : Some 1%positive ∈ ex_registry k.
Proof. apply list_elem_of_here. Qed.

Lemma ex_registered_2 k : Some 2%positive ∈ ex_registry k.
Proof. apply list_elem_of_further, list_elem_of_here. Qed.

Lemma ex_w3_reachable k : reachable (S (S k)) (ex_w3 k).
Proof.
  assert (R1 : reachable (S (S k)) (ex_w1 k)).
  { eapply reachable_step; [apply reachable_init|].
    eapply (step_connect _ 4); [lia| |apply ex_start_4].
    intros (a & t & _ & Ha & _). simpl in Ha.
    rewrite lookup_empty in Ha. discriminate. }
  assert (R2 : reachable (S (S k)) (ex_w2 k)).
  { eapply reachable_step; [exact R1|].
    eapply (step_connect _ 5); [lia| |apply ex_start_5].
    intros (a & t & _ & Ha & Hfd). simpl in Ha.
    apply lookup_singleton_Some in Ha as [_ <-]. discriminate. }
  eapply reachable_step; [exact R2|].
  apply step_line; [apply ex_registered_1|apply ex_pickup_4].
Qed.

Lemma ex_w4_reachable k : reachable (S (S k)) (ex_w4 k).
Proof.
  eapply reachable_step; [apply ex_w3_reachable|].
  apply step_line; [apply ex_registered_1|apply ex_dial_4_5].
Qed.

Lemma ex_w5_reachable k : reachable (S (S k)) (ex_w5 k).
Proof.
  eapply reachable_step; [apply ex_w4_reachable|].
  apply step_line; [apply ex_registered_2|apply ex_dial_5_5].
Qed.

Lemma ex_w5_busy_with_peer k :
  heap (ex_w5 k) !! 2%positive = Some (mkTU 5 (Some 1%positive) TU_BUSY_SIGNAL 2).
Proof. reflexivity. Qed.

Lemma ex_w3_live k : registry_live (heap (ex_w3 k)) (registry (ex_w3 k)).
Proof.
  intros b Hb. simpl in Hb. unfold ex_registry in Hb.
  apply elem_of_cons in Hb as [Hb|Hb]; [inversion Hb; subst|].
  { eexists. split; [reflexivity|simpl; lia]. }
  apply elem_of_cons in Hb as [Hb|Hb]; [inversion Hb; subst|].
  { eexists. split; [reflexivity|simpl; lia]. }
  apply elem_of_replicate in Hb as [Hb _]. discriminate.
Qed.


(** * The claims *)

(** C1 (the code departs from the claim).  Dialling oneself is not a no-op
    outside [TU_DIAL_TONE]: from every state the unit is moved to
    [TU_BUSY_SIGNAL] and is told so; its peer pointer and reference count are
    kept, so unless it already was in [TU_BUSY_SIGNAL] its state has changed. *)
Theorem dial_self_outside_dial_tone_goes_busy w a t :
  heap w !! a = Some t ->
  state t <> TU_DIAL_TONE ->
  exists w',
    tu_dial (Some a) (Some a) w = Some (0, w') /\
    heap w' !! a = Some (mkTU (fd t) (target t) TU_BUSY_SIGNAL (ref_count t)) /\
    out w' = (out w ++ [Wr (fd t) line_BUSY_SIGNAL])%list /\
    (state t <> TU_BUSY_SIGNAL -> heap w' !! a <> heap w !! a).
Proof.
  intros H _. eexists. split; [apply (tu_dial_self _ _ _ H)|].
  simpl. rewrite lookup_insert_eq. repeat split.
  intros Hs Heq. rewrite H in Heq. inversion Heq as [E].
  destruct t; simpl in *. congruence.
Qed.

Lemma dial_self_outside_dial_tone_goes_busy_witness :
  exists w',
    tu_dial (Some 1%positive) (Some 1%positive) ex_world_on_hook = Some (0, w') /\
    heap w' !! 1%positive = Some (mkTU 4 None TU_BUSY_SIGNAL 1) /\
    out w' = [Wr 4 line_BUSY_SIGNAL] /\
    (TU_ON_HOOK <> TU_BUSY_SIGNAL ->
     heap w' !! 1%positive <> heap ex_world_on_hook !! 1%positive).
Proof.
  apply (dial_self_outside_dial_tone_goes_busy ex_world_on_hook 1%positive
           ex_tu_on_hook).
  - reflexivity.
  - simpl. discriminate.
Defined.

(** C2 (the code departs from the claim).  With at least two slots the server
    reaches a state in which a unit has a peer while it is in
    [TU_BUSY_SIGNAL]: a ringing unit that dials its own extension.  State-peer
    consistency fails there. *)
Theorem self_dial_breaks_state_peer_consistency (n : nat) :
  (2 <= n)%nat ->
  exists w,
    reachable n w /\
    (exists a t, heap w !! a = Some t /\
                 target t <> None /\ state t = TU_BUSY_SIGNAL) /\
    ~ state_peer_consistent w.
Proof.
  intros Hn. destruct n as [|[|k]]; [lia|lia|].
  exists (ex_w5 k). split; [apply ex_w5_reachable|]. split.
  - exists 2%positive, (mkTU 5 (Some 1%positive) TU_BUSY_SIGNAL 2).
    split; [apply ex_w5_busy_with_peer|]. split; [discriminate|reflexivity].
  - intros Hc. destruct (Hc _ _ (ex_w5_busy_with_peer k)) as [[Hp _] _].
    simpl in Hp. destruct Hp as [Hp|[Hp|Hp]]; discriminate.
Qed.

Lemma self_dial_breaks_state_peer_consistency_witness :
  exists w,
    reachable 4 w /\
    (exists a t, heap w !! a = Some t /\
                 target t <> None /\ state t = TU_BUSY_SIGNAL) /\
    ~ state_peer_consistent w.
Proof. apply (self_dial_breaks_state_peer_consistency 4). lia. Defined.

(** C3 (the code departs from the claim).  A successful [pbx_register] writes
    [ON HOOK <ext>] to descriptor [ext], but it leaves the registered unit as
    it was: the reference count is not incremented. *)
Theorem pbx_register_keeps_ref_count w a t ext w' :
  heap w !! a = Some t ->
  pbx_register (Some a) ext w = Some (0, w') ->
  heap w' !! a = Some t /\
  ref_count <$> heap w' !! a = Some (ref_count t) /\
  out w' = (out w ++ [Wr ext ("ON HOOK " ++ dec ext ++ EOL)])%list.
Proof.
  intros Ha H. rewrite pbx_register_unfold in H.
  destruct (list_find _ (registry w)) as [[i s]|]; [|discriminate].
  inversion H; subst; simpl. rewrite Ha. auto.
Qed.

Lemma pbx_register_keeps_ref_count_witness :
  heap (mkWorld {[1%positive := ex_tu_on_hook]} [Some 1%positive; None]
                [Wr 4 (line_ON_HOOK 4)]) !! 1%positive = Some ex_tu_on_hook /\
  ref_count <$> heap (mkWorld {[1%positive := ex_tu_on_hook]}
                              [Some 1%positive; None]
                              [Wr 4 (line_ON_HOOK 4)]) !! 1%positive
    = Some (ref_count ex_tu_on_hook) /\
  out (mkWorld {[1%positive := ex_tu_on_hook]} [Some 1%positive; None]
               [Wr 4 (line_ON_HOOK 4)])
    = (out ex_world_fresh ++ [Wr 4 ("ON HOOK " ++ dec 4 ++ EOL)])%list.
Proof.
  apply (pbx_register_keeps_ref_count ex_world_fresh 1%positive ex_tu_on_hook 4).
  - reflexivity.
  - vm_compute. reflexivity.
Defined.

(** C4 (the code departs from the claim).  For a unit that is on hook,
    [tu_hangup] returns 0 and [tu_chat] returns -1, and both leave the world,
    output included, as it was: no notification is written. *)
Theorem hangup_and_chat_on_hook_write_nothing w a t msg :
  heap w !! a = Some t ->
  state t = TU_ON_HOOK ->
  tu_hangup (Some a) w = Some (0, w) /\
  tu_chat (Some a) msg w = Some (-1, w).
Proof.
  intros Ha Hs. split.
  - apply (tu_hangup_on_hook _ _ _ Ha Hs).
  - apply (tu_chat_not_connected _ _ _ _ Ha). rewrite Hs. discriminate.
Qed.

Lemma hangup_and_chat_on_hook_write_nothing_witness :
  tu_hangup (Some 1%positive) ex_world_on_hook = Some (0, ex_world_on_hook) /\
  tu_chat (Some 1%positive) "hello" ex_world_on_hook = Some (-1, ex_world_on_hook).
Proof.
  apply (hangup_and_chat_on_hook_write_nothing ex_world_on_hook 1%positive
           ex_tu_on_hook "hello"); reflexivity.
Defined.

(** C5 (the code departs from the claim).  A connected unit's [tu_chat]
    leaves every unit as it was and writes two lines: first, to the peer's
    descriptor, the message after the lower-case word [chat] and before CR LF;
    then the caller's own [CONNECTED] line.  The line sent to the peer is not
    the [CHAT <msg>] line of the protocol. *)
Theorem chat_line_is_lower_case w a t p u msg :
  heap w !! a = Some t ->
  state t = TU_CONNECTED ->
  target t = Some p ->
  p <> a ->
  heap w !! p = Some u ->
  exists w',
    tu_chat (Some a) msg w = Some (0, w') /\
    heap w' = heap w /\
    out w' = (out w ++ [Wr (fd u) ("chat " ++ msg ++ EOL);
                        Wr (fd t) ("CONNECTED " ++ dec (fd u) ++ EOL)])%list /\
    "chat " ++ msg ++ EOL <> "CHAT " ++ msg ++ EOL.
Proof.
  intros Ha Hs Ht Hne Hp. eexists.
  split; [apply (tu_chat_connected _ _ _ _ _ _ Ha Hs Ht Hne Hp)|].
  simpl. repeat split. discriminate.
Qed.

Lemma chat_line_is_lower_case_witness :
  exists w',
    tu_chat (Some 1%positive) "hello world" ex_world_connected = Some (0, w') /\
    heap w' = heap ex_world_connected /\
    out w' = (out ex_world_connected
              ++ [Wr (fd ex_tu_conn_5) ("chat " ++ "hello world" ++ EOL);
                  Wr (fd ex_tu_conn_4)
                     ("CONNECTED " ++ dec (fd ex_tu_conn_5) ++ EOL)])%list /\
    "chat " ++ "hello world" ++ EOL <> "CHAT " ++ "hello world" ++ EOL.
Proof.
  apply (chat_line_is_lower_case ex_world_connected 1%positive ex_tu_conn_4
           2%positive ex_tu_conn_5 "hello world").
  - reflexivity.
  - reflexivity.
  - reflexivity.
  - discriminate.
  - reflexivity.
Defined.

(** C6.  A unit that [pbx_client_service] has registered for the connection
    [connfd] reports [connfd] as its extension and was sent [ON HOOK] with
    that number on that descriptor; no command line changes the descriptor of
    any unit; and for a registered caller [pbx_dial] passes to [tu_dial] the
    first unit of the registry whose descriptor is the dialled number, or the
    null unit when there is none. *)
Theorem extension_is_connection_fd w connfd a w1 w2 caller ext :
  service_start connfd w = Some (Some a, w1) ->
  registered caller w2 ->
  registry_live (heap w2) (registry w2) ->
  tu_extension (Some a) w1 = Some (connfd, w1) /\
  out w1 = (out w ++ [Wr connfd ("ON HOOK " ++ dec connfd ++ EOL)])%list /\
  (forall client_msg x w3,
     dispatch (Some caller) client_msg w2 = Some (x, w3) -> fd_kept w2 w3) /\
  pbx_dial (Some caller) ext w2 =
    (tu_dial (Some caller)
       (spec_lookup_extension (heap w2) ext (registry w2)) ;;; ret 0) w2.
Proof.
  intros Hs Hr Hl. destruct (service_start_Some _ _ _ _ Hs) as [Hh Ho].
  split; [|split; [|split]].
  - unfold tu_extension, tu_fileno, bind, load.
    rewrite Hh, lookup_insert_eq. reflexivity.
  - exact Ho.
  - intros client_msg x w3. apply keeps_fd_dispatch.
  - apply (pbx_dial_spec _ _ _ Hr Hl).
Qed.

Lemma extension_is_connection_fd_witness :
  tu_extension (Some 1%positive) (ex_w1 2) = Some (4, ex_w1 2) /\
  out (ex_w1 2)
    = (out (pbx_init 4) ++ [Wr 4 ("ON HOOK " ++ dec 4 ++ EOL)])%list /\
  (forall client_msg x w3,
     dispatch (Some 1%positive) client_msg (ex_w3 2) = Some (x, w3) ->
     fd_kept (ex_w3 2) w3) /\
  pbx_dial (Some 1%positive) 5 (ex_w3 2) =
    (tu_dial (Some 1%positive)
       (spec_lookup_extension (heap (ex_w3 2)) 5 (registry (ex_w3 2))) ;;;
     ret 0) (ex_w3 2).
Proof.
  apply (extension_is_connection_fd (pbx_init 4) 4 1%positive (ex_w1 2)
           (ex_w3 2) 1%positive 5).
  - vm_compute. reflexivity.
  - apply ex_registered_1.
  - apply ex_w3_live.
Defined.

(** C7, as the claim states it, fails: with units on descriptors 4 and 5, the
    first in [TU_DIAL_TONE] and the second on hook, the line [dial 5x] has a
    malformed argument, yet the dialler ends in [TU_RING_BACK] and unit 5
    rings. *)
Lemma malformed_dial_reaches_unit :
  well_formed_decimal "5x" = false /\
  reachable 4 (ex_w3 2) /\
  state <$> heap (ex_w3 2) !! 1%positive = Some TU_DIAL_TONE /\
  exists w',
    dispatch (Some 1%positive) "dial 5x" (ex_w3 2) = Some (tt, w') /\
    state <$> heap w' !! 1%positive = Some TU_RING_BACK /\
    state <$> heap w' !! 1%positive <> Some TU_ERROR /\
    state <$> heap w' !! 2%positive = Some TU_RINGING.
Proof.
  split; [reflexivity|]. split; [apply ex_w3_reachable|].
  split; [reflexivity|].
  exists (ex_w4 2). split; [vm_compute; reflexivity|].
  split; [reflexivity|]. split; [discriminate|reflexivity].
Qed.

(** C7, amended.  For a line [dial <arg>] whose argument has no space, the
    dispatcher dials the number [atoi] reads from the argument, well formed or
    not: the target is the first registered unit with that descriptor.  When
    there is none, the dialler goes to [TU_ERROR] from [TU_DIAL_TONE] and is
    told so; from any other state every unit stays as it was and the dialler
    is sent one line. *)
Theorem dial_line_dials_atoi w a t arg :
  split_space arg = None ->
  registered a w ->
  registry_live (heap w) (registry w) ->
  heap w !! a = Some t ->
  peer_readable w t ->
  dispatch (Some a) ("dial " ++ arg) w =
    (tu_dial (Some a)
       (spec_lookup_extension (heap w) (atoi arg) (registry w)) ;;; ret tt) w /\
  (spec_lookup_extension (heap w) (atoi arg) (registry w) = None ->
   exists w',
     dispatch (Some a) ("dial " ++ arg) w = Some (tt, w') /\
     registry w' = registry w /\
     if decide (state t = TU_DIAL_TONE) then
       heap w' = <[a := mkTU (fd t) (target t) TU_ERROR (ref_count t)]> (heap w) /\
       out w' = (out w ++ [Wr (fd t) ("ERROR" ++ EOL)])%list
     else
       heap w' = heap w /\
       exists line, out w' = (out w ++ [Wr (fd t) line])%list).
Proof.
  intros Hsp Hr Hl Ha Hp.
  assert (Hd : dispatch (Some a) ("dial " ++ arg) w =
    (tu_dial (Some a)
       (spec_lookup_extension (heap w) (atoi arg) (registry w)) ;;; ret tt) w).
  { rewrite (dispatch_dial _ _ _ Hsp). unfold bind at 1.
    rewrite (pbx_dial_spec _ _ _ Hr Hl). unfold bind.
    destruct (tu_dial _ _ w) as [[r w']|]; reflexivity. }
  split; [exact Hd|]. intros Hn. rewrite Hd, Hn.
  destruct (decide (state t = TU_DIAL_TONE)) as [Hs|Hs].
  - rewrite (bind_Some _ _ _ _ _ (tu_dial_null_dial_tone _ _ _ Ha Hs)).
    eexists. split; [reflexivity|]. simpl. auto.
  - destruct (tu_dial_null_other _ _ _ Ha Hs Hp) as [line Hline].
    rewrite (bind_Some _ _ _ _ _ Hline).
    eexists. split; [reflexivity|]. simpl. eauto.
Qed.

Lemma dial_line_dials_atoi_witness :
  dispatch (Some 1%positive) ("dial " ++ "abc") (ex_w3 2) =
    (tu_dial (Some 1%positive)
       (spec_lookup_extension (heap (ex_w3 2)) (atoi "abc") (registry (ex_w3 2)))
     ;;; ret tt) (ex_w3 2) /\
  (spec_lookup_extension (heap (ex_w3 2)) (atoi "abc") (registry (ex_w3 2)) = None ->
   exists w',
     dispatch (Some 1%positive) ("dial " ++ "abc") (ex_w3 2) = Some (tt, w') /\
     registry w' = registry (ex_w3 2) /\
     if decide (state ex_tu_dial_tone = TU_DIAL_TONE) then
       heap w' = <[1%positive := mkTU (fd ex_tu_dial_tone) (target ex_tu_dial_tone)
                                      TU_ERROR (ref_count ex_tu_dial_tone)]>
                   (heap (ex_w3 2)) /\
       out w' = (out (ex_w3 2)
                 ++ [Wr (fd ex_tu_dial_tone) ("ERROR" ++ EOL)])%list
     else
       heap w' = heap (ex_w3 2) /\
       exists line,
         out w' = (out (ex_w3 2) ++ [Wr (fd ex_tu_dial_tone) line])%list).
Proof.
  apply (dial_line_dials_atoi (ex_w3 2) 1%positive ex_tu_dial_tone "abc").
  - reflexivity.
  - apply ex_registered_1.
  - apply ex_w3_live.
  - reflexivity.
  - intros H. discriminate H.
Defined.

(** ** Pick up, then hang up *)

Lemma pickup_then_hangup w a t :
  heap w !! a = Some t ->
  state t = TU_ON_HOOK ->
  (tu_pickup (Some a) ;;; tu_hangup (Some a)) w =
    Some (0, mkWorld (heap w) (registry w)
                     (out w ++ [Wr (fd t) line_DIAL_TONE;
                                Wr (fd t) (line_ON_HOOK (fd t))])).
Proof.
  intros Ha Hs.
  rewrite (bind_Some _ _ _ _ _ (tu_pickup_on_hook _ _ _ Ha Hs)).
  erewrite tu_hangup_unpaired;
    [|simpl; apply lookup_insert_eq|left; reflexivity].
  cbn [heap registry out fd target ref_count].
  rewrite insert_insert_eq, <- Hs, tu_eta, (insert_id _ _ _ Ha), <- app_assoc.
  reflexivity.
Qed.

(** C8.  For a unit that is on hook, [tu_pickup] followed by [tu_hangup]
    returns 0 and restores every unit and the registry; the output grows by
    exactly [DIAL TONE] and then [ON HOOK <ext>], both CR LF-terminated and
    both on the unit's own descriptor.  The same holds when the two commands
    arrive as the lines [pickup] and [hangup]. *)
Theorem pickup_hangup_round_trip w a t :
  heap w !! a = Some t ->
  state t = TU_ON_HOOK ->
  target t = None ->
  let w' := mkWorld (heap w) (registry w)
              (out w ++ [Wr (fd t) ("DIAL TONE" ++ EOL);
                         Wr (fd t) ("ON HOOK " ++ dec (fd t) ++ EOL)]) in
  (tu_pickup (Some a) ;;; tu_hangup (Some a)) w = Some (0, w') /\
  (dispatch (Some a) "pickup" ;;; dispatch (Some a) "hangup") w = Some (tt, w') /\
  heap w' !! a = Some t.
Proof.
  intros Ha Hs _ w'. pose proof (pickup_then_hangup _ _ _ Ha Hs) as H.
  split; [exact H|]. split; [|exact Ha].
  change (dispatch (Some a) "pickup") with (tu_pickup (Some a) ;;; ret tt).
  change (dispatch (Some a) "hangup") with (tu_hangup (Some a) ;;; ret tt).
  unfold bind in *.
  destruct (tu_pickup (Some a) w) as [[r1 w1]|]; [|discriminate].
  unfold ret at 1.
  destruct (tu_hangup (Some a) w1) as [[r2 w2]|]; [|discriminate].
  inversion H; subst. reflexivity.
Qed.

Lemma pickup_hangup_round_trip_witness :
  let w' := mkWorld (heap ex_world_on_hook) (registry ex_world_on_hook)
              (out ex_world_on_hook
               ++ [Wr (fd ex_tu_on_hook) ("DIAL TONE" ++ EOL);
                   Wr (fd ex_tu_on_hook)
                      ("ON HOOK " ++ dec (fd ex_tu_on_hook) ++ EOL)]) in
  (tu_pickup (Some 1%positive) ;;; tu_hangup (Some 1%positive)) ex_world_on_hook
    = Some (0, w') /\
  (dispatch (Some 1%positive) "pickup" ;;; dispatch (Some 1%positive) "hangup")
    ex_world_on_hook = Some (tt, w') /\
  heap w' !! 1%positive = Some ex_tu_on_hook.
Proof.
  apply (pickup_hangup_round_trip ex_world_on_hook 1%positive ex_tu_on_hook);
    reflexivity.
Defined.

(** C10.  Called with a null unit, [tu_dial], [tu_pickup], [tu_hangup] and
    [tu_chat] return -1 and leave the world, output included, as it was;
    [tu_fileno] of a null unit is -1. *)
Theorem null_tu_is_rejected w callee msg :
  tu_dial None callee w = Some (-1, w) /\
  tu_pickup None w = Some (-1, w) /\
  tu_hangup None w = Some (-1, w) /\
  tu_chat None msg w = Some (-1, w) /\
  tu_fileno None w = Some (-1, w).
Proof. repeat split. Qed.

(** * Further properties of the code *)

(** Two heaps built by updates of known units agree. *)
Ltac heap_eq :=
  apply map_eq; intros ?x;
  repeat first [ rewrite lookup_insert | rewrite lookup_delete ];
  repeat case_decide; subst; try congruence; try reflexivity.

Lemma world_eq h1 h2 r o1 o2 :
  h1 = h2 -> o1 = o2 -> mkWorld h1 r o1 = mkWorld h2 r o2.
Proof. intros -> ->. reflexivity. Qed.

(** ** Calls between two units *)

Lemma tu_dial_pairs w a b t u :
  heap w !! a = Some t ->
  heap w !! b = Some u ->
  a <> b ->
  state t = TU_DIAL_TONE ->
  target u = None ->
  state u = TU_ON_HOOK ->
  tu_dial (Some a) (Some b) w =
    Some (0, mkWorld
               (<[b := mkTU (fd u) (Some a) TU_RINGING (ref_count u + 1)]>
                  (<[a := mkTU (fd t) (Some b) TU_RING_BACK (ref_count t + 1)]>
                     (heap w)))
               (registry w)
               (out w ++ [Wr (fd t) line_RING_BACK; Wr (fd u) line_RINGING])).
Proof.
  intros Ha Hb Hne Hs Hn Hu. unfold tu_dial. run_step.
  rewrite decide_False by exact Hne. run_step.
  rewrite decide_False by (intros E; apply E; exact Hs).
  rewrite decide_False by (rewrite Hn, Hu; intros [E|E]; apply E; reflexivity).
  repeat run_step. unfold ret. f_equal. f_equal.
  apply world_eq; [heap_eq|].
  rewrite <- app_assoc. reflexivity.
Qed.

Lemma tu_dial_busy w a b t u :
  heap w !! a = Some t ->
  heap w !! b = Some u ->
  a <> b ->
  state t = TU_DIAL_TONE ->
  target u <> None \/ state u <> TU_ON_HOOK ->
  tu_dial (Some a) (Some b) w =
    Some (0, mkWorld
               (<[a := mkTU (fd t) (target t) TU_BUSY_SIGNAL (ref_count t)]> (heap w))
               (registry w)
               (out w ++ [Wr (fd t) line_BUSY_SIGNAL])).
Proof.
  intros Ha Hb Hne Hs Hu. unfold tu_dial. run_step.
  rewrite decide_False by exact Hne. run_step.
  rewrite decide_False by (intros E; apply E; exact Hs).
  rewrite decide_True by exact Hu.
  repeat run_step. reflexivity.
Qed.


Lemma tu_pickup_ringing w a t p u :
  heap w !! a = Some t ->
  state t = TU_RINGING ->
  target t = Some p ->
  p <> a ->
  heap w !! p = Some u ->
  tu_pickup (Some a) w =
    Some (0, mkWorld
               (<[p := mkTU (fd u) (target u) TU_CONNECTED (ref_count u)]>
                  (<[a := mkTU (fd t) (Some p) TU_CONNECTED (ref_count t)]>
                     (heap w)))
               (registry w)
               (out w ++ [Wr (fd t) (line_CONNECTED (fd u));
                          Wr (fd u) (line_CONNECTED (fd t))])).
Proof.
  intros Ha Hs Ht Hne Hp. unfold tu_pickup. run_step. rewrite Hs.
  rewrite decide_False by (intros [_ E]; apply E; reflexivity).
  rewrite decide_False by discriminate.
  rewrite Ht. run_step. rewrite (run_P_second _ _ _ _ _ Hne Hp).
  repeat run_step. unfold ret. rewrite <- app_assoc, ?Ht. reflexivity.
Qed.

(** [tu_hangup] in a paired state: the peer goes to [s], which is
    [TU_DIAL_TONE] after [TU_CONNECTED] or [TU_RINGING] and [TU_ON_HOOK] after
    [TU_RING_BACK]; both peer pointers are cleared and both units lose a
    reference, the peer first. *)
Lemma tu_hangup_paired w a t p u (s : tu_state) :
  heap w !! a = Some t ->
  target t = Some p ->
  p <> a ->
  heap w !! p = Some u ->
  (state t = TU_CONNECTED \/ state t = TU_RINGING) /\ s = TU_DIAL_TONE \/
  state t = TU_RING_BACK /\ s = TU_ON_HOOK ->
  tu_hangup (Some a) w =
    Some (0, mkWorld
               (after_unref a (mkTU (fd t) None TU_ON_HOOK (ref_count t))
                  (after_unref p (mkTU (fd u) None s (ref_count u)) (heap w)))
               (registry w)
               (out w ++ [Wr (fd t) (line_ON_HOOK (fd t));
                          Wr (fd u) (match s with
                                     | TU_DIAL_TONE => line_DIAL_TONE
                                     | _ => line_ON_HOOK (fd u)
                                     end)]
                     ++ closes (mkTU (fd u) None s (ref_count u))
                     ++ closes (mkTU (fd t) None TU_ON_HOOK (ref_count t)))).
Proof.
  intros Ha Ht Hne Hp Hs. unfold tu_hangup. run_step.
  unfold after_unref, closes. cbn [ref_count fd target state].
  destruct Hs as [[Hs ->]|[Hs ->]].
  - rewrite decide_True by exact Hs.
    rewrite Ht. run_step. rewrite (run_P_second _ _ _ _ _ Hne Hp).
    repeat run_step.
    destruct (decide (ref_count u - 1 = 0)); repeat run_step;
      destruct (decide (ref_count t - 1 = 0)); unfold ret;
      f_equal; f_equal; (apply world_eq; [heap_eq|]);
      rewrite <- ?app_assoc; simpl; rewrite ?app_nil_r; reflexivity.
  - rewrite decide_False by (rewrite Hs; intros [?|?]; discriminate).
    rewrite decide_True by exact Hs.
    rewrite Ht. run_step. rewrite (run_P_second _ _ _ _ _ Hne Hp).
    repeat run_step.
    destruct (decide (ref_count u - 1 = 0)); repeat run_step;
      destruct (decide (ref_count t - 1 = 0)); unfold ret;
      f_equal; f_equal; (apply world_eq; [heap_eq|]);
      rewrite <- ?app_assoc; simpl; rewrite ?app_nil_r; reflexivity.
Qed.

Lemma after_unref_keep a t' h :
  ref_count t' <> 1 ->
  after_unref a t' h =
    <[a := mkTU (fd t') (target t') (state t') (ref_count t' - 1)]> h.
Proof. intros H. unfold after_unref. rewrite decide_False by lia. reflexivity. Qed.

Lemma closes_keep t' : ref_count t' <> 1 -> closes t' = [].
Proof. intros H. unfold closes. rewrite decide_False by lia. reflexivity. Qed.

(** X1.  A caller in [TU_DIAL_TONE] that dials another unit which is on hook
    and has no peer: the two become peers of each other, the caller in
    [TU_RING_BACK] and the callee in [TU_RINGING], each with one more
    reference; [RING BACK] is written to the caller and then [RINGING] to the
    callee; no other unit and no registry slot changes. *)
Theorem dial_idle_callee_rings w a b t u :
  heap w !! a = Some t ->
  heap w !! b = Some u ->
  a <> b ->
  state t = TU_DIAL_TONE ->
  target u = None ->
  state u = TU_ON_HOOK ->
  exists w',
    tu_dial (Some a) (Some b) w = Some (0, w') /\
    heap w' !! a = Some (mkTU (fd t) (Some b) TU_RING_BACK (ref_count t + 1)) /\
    heap w' !! b = Some (mkTU (fd u) (Some a) TU_RINGING (ref_count u + 1)) /\
    (forall x, x <> a -> x <> b -> heap w' !! x = heap w !! x) /\
    registry w' = registry w /\
    out w' = (out w ++ [Wr (fd t) ("RING BACK" ++ EOL);
                        Wr (fd u) ("RINGING" ++ EOL)])%list.
Proof.
  intros Ha Hb Hne Hs Hn Hu. eexists.
  split; [apply (tu_dial_pairs _ _ _ _ _ Ha Hb Hne Hs Hn Hu)|].
  cbn [heap registry out]. repeat split.
  - rewrite lookup_insert_ne by congruence. apply lookup_insert_eq.
  - apply lookup_insert_eq.
  - intros x Hxa Hxb. rewrite !lookup_insert_ne by congruence. reflexivity.
Qed.

Lemma dial_idle_callee_rings_witness :
  exists w',
    tu_dial (Some 1%positive) (Some 2%positive) (ex_w3 2) = Some (0, w') /\
    heap w' !! 1%positive
      = Some (mkTU (fd ex_tu_dial_tone) (Some 2%positive) TU_RING_BACK
                   (ref_count ex_tu_dial_tone + 1)) /\
    heap w' !! 2%positive
      = Some (mkTU (fd (mkTU 5 None TU_ON_HOOK 1)) (Some 1%positive) TU_RINGING
                   (ref_count (mkTU 5 None TU_ON_HOOK 1) + 1)) /\
    (forall x, x <> 1%positive -> x <> 2%positive ->
               heap w' !! x = heap (ex_w3 2) !! x) /\
    registry w' = registry (ex_w3 2) /\
    out w' = (out (ex_w3 2)
              ++ [Wr (fd ex_tu_dial_tone) ("RING BACK" ++ EOL);
                  Wr (fd (mkTU 5 None TU_ON_HOOK 1)) ("RINGING" ++ EOL)])%list.
Proof.
  apply (dial_idle_callee_rings (ex_w3 2) 1%positive 2%positive ex_tu_dial_tone
           (mkTU 5 None TU_ON_HOOK 1)).
  - reflexivity.
  - reflexivity.
  - discriminate.
  - reflexivity.
  - reflexivity.
  - reflexivity.
Defined.

(** X2.  A caller in [TU_DIAL_TONE] that dials another unit which has a peer
    or is not on hook goes to [TU_BUSY_SIGNAL] and is sent [BUSY SIGNAL]; the
    callee, every other unit and the registry stay as they were, and nothing
    is written to the callee. *)
Theorem dial_busy_callee_is_left_alone w a b t u :
  heap w !! a = Some t ->
  heap w !! b = Some u ->
  a <> b ->
  state t = TU_DIAL_TONE ->
  target u <> None \/ state u <> TU_ON_HOOK ->
  exists w',
    tu_dial (Some a) (Some b) w = Some (0, w') /\
    heap w' = <[a := mkTU (fd t) (target t) TU_BUSY_SIGNAL (ref_count t)]> (heap w) /\
    heap w' !! b = Some u /\
    registry w' = registry w /\
    out w' = (out w ++ [Wr (fd t) ("BUSY SIGNAL" ++ EOL)])%list.
Proof.
  intros Ha Hb Hne Hs Hu. eexists.
  split; [apply (tu_dial_busy _ _ _ _ _ Ha Hb Hne Hs Hu)|].
  cbn [heap registry out]. repeat split.
  rewrite lookup_insert_ne by exact Hne. exact Hb.
Qed.

Lemma dial_busy_callee_is_left_alone_witness :
  exists w',
    tu_dial (Some 3%positive) (Some 2%positive) ex_world_three = Some (0, w') /\
    heap w' = <[3%positive := mkTU (fd ex_tu_third) (target ex_tu_third)
                                   TU_BUSY_SIGNAL (ref_count ex_tu_third)]>
                (heap ex_world_three) /\
    heap w' !! 2%positive = Some ex_tu_conn_5 /\
    registry w' = registry ex_world_three /\
    out w' = (out ex_world_three
              ++ [Wr (fd ex_tu_third) ("BUSY SIGNAL" ++ EOL)])%list.
Proof.
  apply (dial_busy_callee_is_left_alone ex_world_three 3%positive 2%positive
           ex_tu_third ex_tu_conn_5).
  - reflexivity.
  - reflexivity.
  - discriminate.
  - reflexivity.
  - left. discriminate.
Defined.

(** X3.  A ringing unit that picks up is connected together with the unit its
    peer pointer names, whatever that unit's state: both go to
    [TU_CONNECTED], peers and reference counts are kept, and each is sent
    [CONNECTED] with the other's descriptor, the one that picked up first. *)
Theorem pickup_answers_call w a t p u :
  heap w !! a = Some t ->
  state t = TU_RINGING ->
  target t = Some p ->
  p <> a ->
  heap w !! p = Some u ->
  exists w',
    tu_pickup (Some a) w = Some (0, w') /\
    heap w' !! a = Some (mkTU (fd t) (Some p) TU_CONNECTED (ref_count t)) /\
    heap w' !! p = Some (mkTU (fd u) (target u) TU_CONNECTED (ref_count u)) /\
    (forall x, x <> a -> x <> p -> heap w' !! x = heap w !! x) /\
    registry w' = registry w /\
    out w' = (out w ++ [Wr (fd t) ("CONNECTED " ++ dec (fd u) ++ EOL);
                        Wr (fd u) ("CONNECTED " ++ dec (fd t) ++ EOL)])%list.
Proof.
  intros Ha Hs Ht Hne Hp. eexists.
  split; [apply (tu_pickup_ringing _ _ _ _ _ Ha Hs Ht Hne Hp)|].
  cbn [heap registry out]. repeat split.
  - rewrite lookup_insert_ne by congruence. apply lookup_insert_eq.
  - apply lookup_insert_eq.
  - intros x Hxa Hxb. rewrite !lookup_insert_ne by congruence. reflexivity.
Qed.

Lemma pickup_answers_call_witness :
  exists w',
    tu_pickup (Some 2%positive) (ex_w4 2) = Some (0, w') /\
    heap w' !! 2%positive
      = Some (mkTU (fd (mkTU 5 (Some 1%positive) TU_RINGING 2)) (Some 1%positive)
                   TU_CONNECTED (ref_count (mkTU 5 (Some 1%positive) TU_RINGING 2))) /\
    heap w' !! 1%positive
      = Some (mkTU (fd (mkTU 4 (Some 2%positive) TU_RING_BACK 2))
                   (target (mkTU 4 (Some 2%positive) TU_RING_BACK 2))
                   TU_CONNECTED
                   (ref_count (mkTU 4 (Some 2%positive) TU_RING_BACK 2))) /\
    (forall x, x <> 2%positive -> x <> 1%positive ->
               heap w' !! x = heap (ex_w4 2) !! x) /\
    registry w' = registry (ex_w4 2) /\
    out w' = (out (ex_w4 2)
              ++ [Wr (fd (mkTU 5 (Some 1%positive) TU_RINGING 2))
                     ("CONNECTED "
                      ++ dec (fd (mkTU 4 (Some 2%positive) TU_RING_BACK 2)) ++ EOL);
                  Wr (fd (mkTU 4 (Some 2%positive) TU_RING_BACK 2))
                     ("CONNECTED "
                      ++ dec (fd (mkTU 5 (Some 1%positive) TU_RINGING 2)) ++ EOL)])%list.
Proof.
  apply (pickup_answers_call (ex_w4 2) 2%positive
           (mkTU 5 (Some 1%positive) TU_RINGING 2) 1%positive
           (mkTU 4 (Some 2%positive) TU_RING_BACK 2)).
  - reflexivity.
  - reflexivity.
  - reflexivity.
  - discriminate.
  - reflexivity.
Defined.

(** X4.  A unit that hangs up while it has a peer: it goes on hook and its
    peer goes to [TU_DIAL_TONE] (from a connected or ringing caller) or on
    hook (from a caller in [TU_RING_BACK]); both peer pointers are cleared and
    both reference counts drop by one; the caller is sent [ON HOOK <ext>]
    first and the peer its new state.  Stated for counts other than 1, for
    which neither unit is freed. *)
Theorem hangup_ends_call w a t p u (s : tu_state) :
  heap w !! a = Some t ->
  target t = Some p ->
  p <> a ->
  heap w !! p = Some u ->
  (state t = TU_CONNECTED \/ state t = TU_RINGING) /\ s = TU_DIAL_TONE \/
  state t = TU_RING_BACK /\ s = TU_ON_HOOK ->
  ref_count t <> 1 ->
  ref_count u <> 1 ->
  exists w',
    tu_hangup (Some a) w = Some (0, w') /\
    heap w' !! a = Some (mkTU (fd t) None TU_ON_HOOK (ref_count t - 1)) /\
    heap w' !! p = Some (mkTU (fd u) None s (ref_count u - 1)) /\
    (forall x, x <> a -> x <> p -> heap w' !! x = heap w !! x) /\
    registry w' = registry w /\
    out w' = (out w ++ [Wr (fd t) ("ON HOOK " ++ dec (fd t) ++ EOL);
                        Wr (fd u) (match s with
                                   | TU_DIAL_TONE => "DIAL TONE" ++ EOL
                                   | _ => "ON HOOK " ++ dec (fd u) ++ EOL
                                   end)])%list.
Proof.
  intros Ha Ht Hne Hp Hs Hrt Hru. eexists.
  split; [apply (tu_hangup_paired _ _ _ _ _ s Ha Ht Hne Hp Hs)|].
  rewrite !after_unref_keep, !closes_keep by assumption.
  cbn [heap registry out fd target state ref_count]. repeat split.
  - apply lookup_insert_eq.
  - rewrite lookup_insert_ne by congruence. apply lookup_insert_eq.
  - intros x Hxa Hxb. rewrite !lookup_insert_ne by congruence. reflexivity.
Qed.

Lemma hangup_ends_call_witness :
  exists w',
    tu_hangup (Some 1%positive) ex_world_connected = Some (0, w') /\
    heap w' !! 1%positive
      = Some (mkTU (fd ex_tu_conn_4) None TU_ON_HOOK (ref_count ex_tu_conn_4 - 1)) /\
    heap w' !! 2%positive
      = Some (mkTU (fd ex_tu_conn_5) None TU_DIAL_TONE (ref_count ex_tu_conn_5 - 1)) /\
    (forall x, x <> 1%positive -> x <> 2%positive ->
               heap w' !! x = heap ex_world_connected !! x) /\
    registry w' = registry ex_world_connected /\
    out w' = (out ex_world_connected
              ++ [Wr (fd ex_tu_conn_4) ("ON HOOK " ++ dec (fd ex_tu_conn_4) ++ EOL);
                  Wr (fd ex_tu_conn_5)
                     (match TU_DIAL_TONE with
                      | TU_DIAL_TONE => "DIAL TONE" ++ EOL
                      | _ => "ON HOOK " ++ dec (fd ex_tu_conn_5) ++ EOL
                      end)])%list.
Proof.
  apply (hangup_ends_call ex_world_connected 1%positive ex_tu_conn_4 2%positive
           ex_tu_conn_5 TU_DIAL_TONE).
  - reflexivity.
  - reflexivity.
  - discriminate.
  - reflexivity.
  - left. split; [left; reflexivity|reflexivity].
  - intros H. cbv in H. discriminate H.
  - intros H. cbv in H. discriminate H.
Defined.

(** ** Reference counts *)

Lemma tu_unref_Some w a t :
  heap w !! a = Some t ->
  tu_unref a w =
    Some (tt, mkWorld (after_unref a t (heap w)) (registry w) (out w ++ closes t)).
Proof.
  intros Ha.
  assert (H := run_tu_unref (fun _ => ret tt) w a t Ha).
  unfold bind in H. destruct (tu_unref a w) as [[[] w1]|].
  - unfold ret in H. rewrite H. unfold after_unref, closes.
    destruct (decide (ref_count t - 1 = 0)); [reflexivity|].
    rewrite app_nil_r. reflexivity.
  - destruct (decide (ref_count t - 1 = 0)); discriminate.
Qed.






(** ** Whole calls *)

Lemma dial_then_hangup w a b t u :
  heap w !! a = Some t ->
  heap w !! b = Some u ->
  a <> b ->
  state t = TU_DIAL_TONE ->
  target u = None ->
  state u = TU_ON_HOOK ->
  ref_count t <> 0 ->
  ref_count u <> 0 ->
  (tu_dial (Some a) (Some b) ;;; tu_hangup (Some a)) w =
    Some (0, mkWorld
               (<[a := mkTU (fd t) None TU_ON_HOOK (ref_count t)]> (heap w))
               (registry w)
               (out w ++ [Wr (fd t) line_RING_BACK; Wr (fd u) line_RINGING;
                          Wr (fd t) (line_ON_HOOK (fd t));
                          Wr (fd u) (line_ON_HOOK (fd u))])).
Proof.
  intros Ha Hb Hne Hs Hn Hu Hrt Hru.
  rewrite (bind_Some _ _ _ _ _ (tu_dial_pairs _ _ _ _ _ Ha Hb Hne Hs Hn Hu)).
  erewrite (tu_hangup_paired _ a _ b _ TU_ON_HOOK);
    [ | cbn [heap]; rewrite lookup_insert_ne by congruence; apply lookup_insert_eq
      | reflexivity | congruence | cbn [heap]; apply lookup_insert_eq
      | right; split; reflexivity ].
  cbn [heap registry out fd target state ref_count].
  rewrite !after_unref_keep, !closes_keep by (cbn [ref_count]; lia).
  cbn [fd target state ref_count]. rewrite !app_nil_r, <- app_assoc.
  f_equal. f_equal. apply world_eq; [|reflexivity].
  replace (ref_count t + 1 - 1) with (ref_count t) by lia.
  replace (ref_count u + 1 - 1) with (ref_count u) by lia.
  apply map_eq. intros x.
  repeat rewrite lookup_insert. repeat case_decide; subst; try congruence.
  rewrite Hb, <- Hn, <- Hu. rewrite tu_eta. reflexivity.
Qed.

(** X7.  A successful dial followed by the caller's hangup: the callee is
    exactly as before the dial, reference count included, and the caller is on
    hook with its count unchanged; the lines written are [RING BACK],
    [RINGING], [ON HOOK <caller>] and [ON HOOK <callee>], in this order. *)
Theorem dial_hangup_round_trip w a b t u :
  heap w !! a = Some t ->
  heap w !! b = Some u ->
  a <> b ->
  state t = TU_DIAL_TONE ->
  target u = None ->
  state u = TU_ON_HOOK ->
  ref_count t <> 0 ->
  ref_count u <> 0 ->
  exists w',
    (tu_dial (Some a) (Some b) ;;; tu_hangup (Some a)) w = Some (0, w') /\
    heap w' !! a = Some (mkTU (fd t) None TU_ON_HOOK (ref_count t)) /\
    (forall x, x <> a -> heap w' !! x = heap w !! x) /\
    registry w' = registry w /\
    out w' = (out w ++ [Wr (fd t) ("RING BACK" ++ EOL);
                        Wr (fd u) ("RINGING" ++ EOL);
                        Wr (fd t) ("ON HOOK " ++ dec (fd t) ++ EOL);
                        Wr (fd u) ("ON HOOK " ++ dec (fd u) ++ EOL)])%list.
Proof.
  intros Ha Hb Hne Hs Hn Hu Hrt Hru. eexists.
  split; [apply (dial_then_hangup _ _ _ _ _ Ha Hb Hne Hs Hn Hu Hrt Hru)|].
  cbn [heap registry out]. repeat split.
  - apply lookup_insert_eq.
  - intros x Hx. apply lookup_insert_ne. congruence.
Qed.

Lemma dial_hangup_round_trip_witness :
  exists w',
    (tu_dial (Some 1%positive) (Some 2%positive) ;;; tu_hangup (Some 1%positive))
      (ex_w3 2) = Some (0, w') /\
    heap w' !! 1%positive
      = Some (mkTU (fd ex_tu_dial_tone) None TU_ON_HOOK (ref_count ex_tu_dial_tone)) /\
    (forall x, x <> 1%positive -> heap w' !! x = heap (ex_w3 2) !! x) /\
    registry w' = registry (ex_w3 2) /\
    out w' = (out (ex_w3 2)
              ++ [Wr (fd ex_tu_dial_tone) ("RING BACK" ++ EOL);
                  Wr (fd (mkTU 5 None TU_ON_HOOK 1)) ("RINGING" ++ EOL);
                  Wr (fd ex_tu_dial_tone)
                     ("ON HOOK " ++ dec (fd ex_tu_dial_tone) ++ EOL);
                  Wr (fd (mkTU 5 None TU_ON_HOOK 1))
                     ("ON HOOK " ++ dec (fd (mkTU 5 None TU_ON_HOOK 1)) ++ EOL)])%list.
Proof.
  apply (dial_hangup_round_trip (ex_w3 2) 1%positive 2%positive ex_tu_dial_tone
           (mkTU 5 None TU_ON_HOOK 1)).
  - reflexivity.
  - reflexivity.
  - discriminate.
  - reflexivity.
  - reflexivity.
  - reflexivity.
  - intros H. cbv in H. discriminate H.
  - intros H. cbv in H. discriminate H.
Defined.

Lemma dial_then_pickup w a b t u :
  heap w !! a = Some t ->
  heap w !! b = Some u ->
  a <> b ->
  state t = TU_DIAL_TONE ->
  target u = None ->
  state u = TU_ON_HOOK ->
  (tu_dial (Some a) (Some b) ;;; tu_pickup (Some b)) w =
    Some (0, mkWorld
               (<[a := mkTU (fd t) (Some b) TU_CONNECTED (ref_count t + 1)]>
                  (<[b := mkTU (fd u) (Some a) TU_CONNECTED (ref_count u + 1)]>
                     (heap w)))
               (registry w)
               (out w ++ [Wr (fd t) line_RING_BACK; Wr (fd u) line_RINGING;
                          Wr (fd u) (line_CONNECTED (fd t));
                          Wr (fd t) (line_CONNECTED (fd u))])).
Proof.
  intros Ha Hb Hne Hs Hn Hu.
  rewrite (bind_Some _ _ _ _ _ (tu_dial_pairs _ _ _ _ _ Ha Hb Hne Hs Hn Hu)).
  erewrite (tu_pickup_ringing _ b _ a);
    [ | cbn [heap]; apply lookup_insert_eq | reflexivity | reflexivity
      | exact Hne
      | cbn [heap]; rewrite lookup_insert_ne by congruence; apply lookup_insert_eq ].
  cbn [heap registry out fd target state ref_count].
  rewrite <- app_assoc. f_equal. f_equal. apply world_eq; [heap_eq|reflexivity].
Qed.

(** X8.  A whole call: after a successful dial and the callee's pickup, the
    side that hangs up ends on hook and the other side in [TU_DIAL_TONE];
    both have no peer and the reference counts they had before the dial. *)
Theorem answered_call_hung_up w a b t u :
  heap w !! a = Some t ->
  heap w !! b = Some u ->
  a <> b ->
  state t = TU_DIAL_TONE ->
  target u = None ->
  state u = TU_ON_HOOK ->
  ref_count t <> 0 ->
  ref_count u <> 0 ->
  (exists w1,
     (tu_dial (Some a) (Some b) ;;; tu_pickup (Some b) ;;; tu_hangup (Some a)) w
       = Some (0, w1) /\
     heap w1 !! a = Some (mkTU (fd t) None TU_ON_HOOK (ref_count t)) /\
     heap w1 !! b = Some (mkTU (fd u) None TU_DIAL_TONE (ref_count u)) /\
     (forall x, x <> a -> x <> b -> heap w1 !! x = heap w !! x)) /\
  (exists w2,
     (tu_dial (Some a) (Some b) ;;; tu_pickup (Some b) ;;; tu_hangup (Some b)) w
       = Some (0, w2) /\
     heap w2 !! a = Some (mkTU (fd t) None TU_DIAL_TONE (ref_count t)) /\
     heap w2 !! b = Some (mkTU (fd u) None TU_ON_HOOK (ref_count u)) /\
     (forall x, x <> a -> x <> b -> heap w2 !! x = heap w !! x)).
Proof.
  intros Ha Hb Hne Hs Hn Hu Hrt Hru.
  pose proof (dial_then_pickup _ _ _ _ _ Ha Hb Hne Hs Hn Hu) as Hdp.
  unfold bind at 1 in Hdp.
  split.
  - unfold bind at 1. unfold bind at 1.
    destruct (tu_dial (Some a) (Some b) w) as [[r0 w0]|]; [|discriminate].
    rewrite Hdp.
    erewrite (tu_hangup_paired _ a _ b _ TU_DIAL_TONE);
      [ | cbn [heap]; apply lookup_insert_eq | reflexivity | congruence
        | cbn [heap]; rewrite lookup_insert_ne by congruence; apply lookup_insert_eq
        | left; split; [left; reflexivity|reflexivity] ].
    rewrite !after_unref_keep by (cbn [ref_count]; lia).
    eexists. split; [reflexivity|].
    cbn [heap registry out fd target state ref_count].
    replace (ref_count t + 1 - 1) with (ref_count t) by lia.
    replace (ref_count u + 1 - 1) with (ref_count u) by lia.
    repeat split.
    + apply lookup_insert_eq.
    + rewrite lookup_insert_ne by congruence. apply lookup_insert_eq.
    + intros x Hxa Hxb. rewrite !lookup_insert_ne by congruence. reflexivity.
  - unfold bind at 1. unfold bind at 1.
    destruct (tu_dial (Some a) (Some b) w) as [[r0 w0]|]; [|discriminate].
    rewrite Hdp.
    erewrite (tu_hangup_paired _ b _ a _ TU_DIAL_TONE);
      [ | cbn [heap]; rewrite lookup_insert_ne by congruence; apply lookup_insert_eq
        | reflexivity | congruence
        | cbn [heap]; apply lookup_insert_eq
        | left; split; [left; reflexivity|reflexivity] ].
    rewrite !after_unref_keep by (cbn [ref_count]; lia).
    eexists. split; [reflexivity|].
    cbn [heap registry out fd target state ref_count].
    replace (ref_count t + 1 - 1) with (ref_count t) by lia.
    replace (ref_count u + 1 - 1) with (ref_count u) by lia.
    repeat split.
    + rewrite lookup_insert_ne by congruence. apply lookup_insert_eq.
    + apply lookup_insert_eq.
    + intros x Hxa Hxb. rewrite !lookup_insert_ne by congruence. reflexivity.
Qed.

Lemma answered_call_hung_up_witness :
  (exists w1,
     (tu_dial (Some 1%positive) (Some 2%positive) ;;; tu_pickup (Some 2%positive)
      ;;; tu_hangup (Some 1%positive)) (ex_w3 2) = Some (0, w1) /\
     heap w1 !! 1%positive
       = Some (mkTU (fd ex_tu_dial_tone) None TU_ON_HOOK (ref_count ex_tu_dial_tone)) /\
     heap w1 !! 2%positive
       = Some (mkTU (fd (mkTU 5 None TU_ON_HOOK 1)) None TU_DIAL_TONE
                    (ref_count (mkTU 5 None TU_ON_HOOK 1))) /\
     (forall x, x <> 1%positive -> x <> 2%positive ->
                heap w1 !! x = heap (ex_w3 2) !! x)) /\
  (exists w2,
     (tu_dial (Some 1%positive) (Some 2%positive) ;;; tu_pickup (Some 2%positive)
      ;;; tu_hangup (Some 2%positive)) (ex_w3 2) = Some (0, w2) /\
     heap w2 !! 1%positive
       = Some (mkTU (fd ex_tu_dial_tone) None TU_DIAL_TONE (ref_count ex_tu_dial_tone)) /\
     heap w2 !! 2%positive
       = Some (mkTU (fd (mkTU 5 None TU_ON_HOOK 1)) None TU_ON_HOOK
                    (ref_count (mkTU 5 None TU_ON_HOOK 1))) /\
     (forall x, x <> 1%positive -> x <> 2%positive ->
                heap w2 !! x = heap (ex_w3 2) !! x)).
Proof.
  apply (answered_call_hung_up (ex_w3 2) 1%positive 2%positive ex_tu_dial_tone
           (mkTU 5 None TU_ON_HOOK 1)).
  - reflexivity.
  - reflexivity.
  - discriminate.
  - reflexivity.
  - reflexivity.
  - reflexivity.
  - intros H. cbv in H. discriminate H.
  - intros H. cbv in H. discriminate H.
Defined.

(** X9.  [TU_ERROR] is left by hanging up: a unit in [TU_DIAL_TONE] whose dial
    finds no target gets -1 and [ERROR], and its hangup then returns 0 and
    puts it on hook with [ON HOOK <ext>]; peer pointer, reference count,
    every other unit and the registry are as before the dial. *)
Theorem failed_dial_then_hangup w a t :
  heap w !! a = Some t ->
  state t = TU_DIAL_TONE ->
  exists w1,
    tu_dial (Some a) None w = Some (-1, w1) /\
    state <$> heap w1 !! a = Some TU_ERROR /\
    tu_hangup (Some a) w1 =
      Some (0, mkWorld
                 (<[a := mkTU (fd t) (target t) TU_ON_HOOK (ref_count t)]> (heap w))
                 (registry w)
                 (out w ++ [Wr (fd t) ("ERROR" ++ EOL);
                            Wr (fd t) ("ON HOOK " ++ dec (fd t) ++ EOL)])).
Proof.
  intros Ha Hs. eexists.
  split; [apply (tu_dial_null_dial_tone _ _ _ Ha Hs)|].
  cbn [heap]. rewrite lookup_insert_eq. split; [reflexivity|].
  erewrite tu_hangup_unpaired;
    [ | cbn [heap]; apply lookup_insert_eq | right; right; reflexivity ].
  cbn [heap registry out fd target state ref_count].
  rewrite insert_insert_eq, <- app_assoc. reflexivity.
Qed.

Lemma failed_dial_then_hangup_witness :
  exists w1,
    tu_dial (Some 1%positive) None (ex_w3 2) = Some (-1, w1) /\
    state <$> heap w1 !! 1%positive = Some TU_ERROR /\
    tu_hangup (Some 1%positive) w1 =
      Some (0, mkWorld
                 (<[1%positive := mkTU (fd ex_tu_dial_tone) (target ex_tu_dial_tone)
                                       TU_ON_HOOK (ref_count ex_tu_dial_tone)]>
                    (heap (ex_w3 2)))
                 (registry (ex_w3 2))
                 (out (ex_w3 2)
                  ++ [Wr (fd ex_tu_dial_tone) ("ERROR" ++ EOL);
                      Wr (fd ex_tu_dial_tone)
                         ("ON HOOK " ++ dec (fd ex_tu_dial_tone) ++ EOL)])).
Proof.
  apply (failed_dial_then_hangup (ex_w3 2) 1%positive ex_tu_dial_tone);
    reflexivity.
Defined.

(** ** The registry *)

Lemma list_find_middle {A} (P : A -> Prop) `{!forall x, Decision (P x)}
    (pre : list A) (x : A) (post : list A) :
  Forall (fun y => ~ P y) pre ->
  P x ->
  list_find P (pre ++ x :: post)%list = Some (length pre, x).
Proof.
  intros Hpre Hx. rewrite list_find_app_r by (apply list_find_None, Hpre).
  simpl. rewrite decide_True by exact Hx. reflexivity.
Qed.

Lemma insert_middle {A} (pre : list A) (x y : A) (post : list A) :
  <[length pre := y]> (pre ++ x :: post)%list = (pre ++ y :: post)%list.
Proof.
  replace (length pre) with (length pre + 0)%nat by lia.
  rewrite insert_app_r. reflexivity.
Qed.

Lemma pbx_register_at w tu ext pre post :
  Forall (fun slot => slot <> None) pre ->
  registry w = (pre ++ None :: post)%list ->
  pbx_register tu ext w =
    Some (0, mkWorld (heap w) (pre ++ tu :: post)
                     (out w ++ [Wr ext (line_ON_HOOK ext)])).
Proof.
  intros Hpre Hreg. rewrite pbx_register_unfold, Hreg.
  rewrite (list_find_middle _ pre None post Hpre eq_refl).
  rewrite insert_middle. reflexivity.
Qed.

Lemma pbx_register_full w tu ext :
  Forall (fun slot => slot <> None) (registry w) ->
  pbx_register tu ext w = Some (-1, w).
Proof.
  intros Hfull. rewrite pbx_register_unfold.
  rewrite (proj2 (list_find_None _ _) Hfull). reflexivity.
Qed.

(** X10.  [pbx_register] installs the unit in the first empty slot, whatever
    the extension number, leaves all other slots and every unit as they were,
    and writes [ON HOOK <ext>] to descriptor [ext]. *)
Theorem pbx_register_first_free_slot w tu ext pre post :
  Forall (fun slot => slot <> None) pre ->
  registry w = (pre ++ None :: post)%list ->
  exists w',
    pbx_register tu ext w = Some (0, w') /\
    registry w' = (pre ++ tu :: post)%list /\
    length (registry w') = length (registry w) /\
    heap w' = heap w /\
    out w' = (out w ++ [Wr ext ("ON HOOK " ++ dec ext ++ EOL)])%list.
Proof.
  intros Hpre Hreg. eexists.
  split; [apply (pbx_register_at _ _ _ _ _ Hpre Hreg)|].
  cbn [heap registry out]. repeat split.
  rewrite Hreg, !length_app. reflexivity.
Qed.

Lemma pbx_register_first_free_slot_witness :
  exists w',
    pbx_register (Some 2%positive) 5 (ex_w1 2) = Some (0, w') /\
    registry w' = ([Some 1%positive] ++ Some 2%positive :: [None; None])%list /\
    length (registry w') = length (registry (ex_w1 2)) /\
    heap w' = heap (ex_w1 2) /\
    out w' = (out (ex_w1 2) ++ [Wr 5 ("ON HOOK " ++ dec 5 ++ EOL)])%list.
Proof.
  apply (pbx_register_first_free_slot (ex_w1 2) (Some 2%positive) 5
           [Some 1%positive] [None; None]).
  - constructor; [discriminate|constructor].
  - reflexivity.
Defined.

(** X11.  When no slot is empty [pbx_register] returns -1 and changes and
    writes nothing; [pbx_client_service] then closes the connection and
    returns, and the unit [tu_init] made stays allocated, on hook with count
    1, outside the registry. *)
Theorem full_registry_rejects w tu connfd :
  Forall (fun slot => slot <> None) (registry w) ->
  pbx_register tu connfd w = Some (-1, w) /\
  service_start connfd w =
    Some (None, mkWorld
                  (<[fresh (dom (heap w)) := mkTU connfd None TU_ON_HOOK 1]> (heap w))
                  (registry w)
                  (out w ++ [Cl connfd])).
Proof.
  intros Hfull. split; [apply (pbx_register_full _ _ _ Hfull)|].
  unfold service_start, tu_init. unfold bind at 1. unfold bind at 1.
  rewrite pbx_register_full by exact Hfull.
  rewrite decide_True by reflexivity. reflexivity.
Qed.

Lemma full_registry_rejects_witness :
  pbx_register (Some 2%positive) 5 ex_world_on_hook = Some (-1, ex_world_on_hook) /\
  service_start 5 ex_world_on_hook =
    Some (None, mkWorld
                  (<[fresh (dom (heap ex_world_on_hook))
                     := mkTU 5 None TU_ON_HOOK 1]> (heap ex_world_on_hook))
                  (registry ex_world_on_hook)
                  (out ex_world_on_hook ++ [Cl 5])).
Proof.
  apply (full_registry_rejects ex_world_on_hook (Some 2%positive) 5).
  constructor; [discriminate|constructor].
Defined.

Lemma list_find_absent (tu : option addr) (reg : list (option addr)) :
  tu ∉ reg ->
  list_find (fun slot : option addr => slot = tu) reg = None.
Proof.
  intros Hn. apply list_find_None, Forall_forall.
  intros x Hx E. subst x. exact (Hn Hx).
Qed.

(** X12.  For a unit that is in no slot, [pbx_unregister] and [pbx_dial]
    return -1 and change and write nothing. *)
Theorem unregistered_unit_is_refused w a ext :
  ~ registered a w ->
  pbx_unregister (Some a) w = Some (-1, w) /\
  pbx_dial (Some a) ext w = Some (-1, w).
Proof.
  intros Hn. unfold pbx_unregister, pbx_dial, bind, get_registry.
  rewrite (list_find_absent _ _ Hn). split; reflexivity.
Qed.

Lemma unregistered_unit_is_refused_witness :
  pbx_unregister (Some 2%positive) ex_world_on_hook = Some (-1, ex_world_on_hook) /\
  pbx_dial (Some 2%positive) 4 ex_world_on_hook = Some (-1, ex_world_on_hook).
Proof.
  apply (unregistered_unit_is_refused ex_world_on_hook 2%positive 4).
  unfold registered. simpl. intros H.
  apply list_elem_of_singleton in H. discriminate H.
Defined.

Lemma pbx_dial_scan_returns_0 tu ext slots w r w' :
  pbx_dial_scan tu ext slots w = Some (r, w') -> r = 0.
Proof.
  induction slots as [|slot rest IH]; cbn [pbx_dial_scan]; intros H.
  - apply bind_inv in H as (x & w1 & _ & H). inversion H. reflexivity.
  - apply bind_inv in H as (n & w1 & Hn & H).
    assert (w1 = w) as ->.
    { destruct slot as [b|]; simpl in Hn.
      - unfold bind, load in Hn. destruct (heap w !! b); [|discriminate].
        inversion Hn. reflexivity.
      - inversion Hn. reflexivity. }
    destruct (decide (n = ext)).
    + apply bind_inv in H as (x & w2 & _ & H). inversion H. reflexivity.
    + apply IH, H.
Qed.

(** X13.  The value [pbx_dial] returns tells only whether the caller is
    registered: when it returns, it returns 0 for a caller that is in the
    registry, also when the dial has left the caller in [TU_ERROR] or
    [TU_BUSY_SIGNAL], and -1 for a caller that is in no slot, and then
    nothing has changed. *)
Theorem pbx_dial_return_value w a ext r w' :
  pbx_dial (Some a) ext w = Some (r, w') ->
  (registered a w /\ r = 0) \/ (~ registered a w /\ r = -1 /\ w' = w).
Proof.
  unfold pbx_dial. unfold bind at 1. unfold get_registry.
  destruct (list_find _ (registry w)) as [[i s]|] eqn:Hf.
  - intros H. left. split; [|apply (pbx_dial_scan_returns_0 _ _ _ _ _ _ H)].
    apply list_find_Some in Hf as (Hi & -> & _).
    apply (list_elem_of_lookup_2 _ _ _ Hi).
  - unfold ret. intros H. inversion H; subst. right.
    split; [|auto]. intros Hr. apply list_find_None in Hf.
    rewrite Forall_forall in Hf. apply (Hf _ Hr). reflexivity.
Qed.

Lemma pbx_dial_return_value_witness :
  (registered 1%positive (ex_w3 2) /\ 0 = 0) \/
  (~ registered 1%positive (ex_w3 2) /\ 0 = -1 /\
   mkWorld (<[1%positive := mkTU 4 None TU_ERROR 1]> (heap (ex_w3 2)))
           (registry (ex_w3 2)) (out (ex_w3 2) ++ [Wr 4 line_ERROR]) = ex_w3 2).
Proof.
  apply (pbx_dial_return_value (ex_w3 2) 1%positive 99).
  vm_compute. reflexivity.
Defined.

Lemma list_find_registered (a : addr) (pre post : list (option addr)) :
  Some a ∉ pre ->
  list_find (fun slot : option addr => slot = Some a) (pre ++ Some a :: post)%list
    = Some (length pre, Some a).
Proof.
  intros Hn. apply list_find_middle; [|reflexivity].
  apply Forall_forall. intros x Hx E. subst x. exact (Hn Hx).
Qed.

Lemma pbx_unregister_idle w a t pre post :
  registry w = (pre ++ Some a :: post)%list ->
  Some a ∉ pre ->
  heap w !! a = Some t ->
  state t <> TU_CONNECTED /\ state t <> TU_RINGING /\ state t <> TU_RING_BACK ->
  pbx_unregister (Some a) w =
    Some (0, mkWorld
               (after_unref a (mkTU (fd t) (target t) TU_ON_HOOK (ref_count t))
                  (heap w))
               (pre ++ None :: post)
               (out w ++ idle_hangup_lines t ++ closes t)).
Proof.
  intros Hreg Hn Ha Hs. unfold pbx_unregister. unfold bind at 1.
  unfold get_registry. rewrite Hreg, (list_find_registered _ _ _ Hn).
  rewrite run_deref. run_step. rewrite decide_True by exact Hs.
  rewrite insert_middle. unfold idle_hangup_lines.
  destruct (decide (state t = TU_ON_HOOK)) as [E|E].
  - unfold bind at 1. unfold bind at 1.
    rewrite (tu_hangup_on_hook _ _ _ Ha E).
    rewrite (tu_unref_Some _ _ _ Ha).
    unfold bind, set_registry, ret. cbn [heap registry out].
    f_equal. f_equal. unfold after_unref. cbn [fd target state ref_count].
    rewrite <- E. reflexivity.
  - assert (Hu : state t = TU_DIAL_TONE \/ state t = TU_BUSY_SIGNAL
                 \/ state t = TU_ERROR).
    { destruct Hs as (H1 & H2 & H3). destruct (state t); auto; contradiction. }
    unfold bind at 1. unfold bind at 1.
    rewrite (tu_hangup_unpaired _ _ _ Ha Hu).
    erewrite tu_unref_Some by (cbn [heap]; apply lookup_insert_eq).
    unfold bind, set_registry, ret. cbn [heap registry out].
    f_equal. f_equal. unfold after_unref, closes.
    cbn [fd target state ref_count].
    destruct (decide (ref_count t - 1 = 0));
      (apply world_eq; [heap_eq|rewrite <- app_assoc; reflexivity]).
Qed.

(** X14.  [pbx_unregister] of a registered unit that is in no call and whose
    count is 1: the unit is hung up (it is sent [ON HOOK <ext>] unless it was
    on hook already), its descriptor is closed, the unit is freed and its
    slot, the first that holds it, is emptied; it returns 0. *)
Theorem unregister_frees_idle_unit w a t pre post :
  registry w = (pre ++ Some a :: post)%list ->
  Some a ∉ pre ->
  heap w !! a = Some t ->
  state t <> TU_CONNECTED /\ state t <> TU_RINGING /\ state t <> TU_RING_BACK ->
  ref_count t = 1 ->
  pbx_unregister (Some a) w =
    Some (0, mkWorld (delete a (heap w)) (pre ++ None :: post)
                     (out w
                      ++ (if decide (state t = TU_ON_HOOK) then []
                          else [Wr (fd t) ("ON HOOK " ++ dec (fd t) ++ EOL)])
                      ++ [Cl (fd t)])).
Proof.
  intros Hreg Hn Ha Hs Hr.
  rewrite (pbx_unregister_idle _ _ _ _ _ Hreg Hn Ha Hs).
  unfold after_unref, closes, idle_hangup_lines. cbn [ref_count].
  destruct (decide (ref_count t - 1 = 0)); [reflexivity|lia].
Qed.

Lemma unregister_frees_idle_unit_witness :
  pbx_unregister (Some 1%positive) (ex_w3 2) =
    Some (0, mkWorld (delete 1%positive (heap (ex_w3 2)))
                     ([] ++ None :: Some 2%positive :: replicate 2 None)
                     (out (ex_w3 2)
                      ++ (if decide (state ex_tu_dial_tone = TU_ON_HOOK) then []
                          else [Wr (fd ex_tu_dial_tone)
                                   ("ON HOOK " ++ dec (fd ex_tu_dial_tone) ++ EOL)])
                      ++ [Cl (fd ex_tu_dial_tone)])).
Proof.
  apply (unregister_frees_idle_unit (ex_w3 2) 1%positive ex_tu_dial_tone []
           (Some 2%positive :: replicate 2 None)).
  - reflexivity.
  - apply not_elem_of_nil.
  - reflexivity.
  - repeat split; discriminate.
  - reflexivity.
Defined.

(** Registering a unit and unregistering it at once. *)
Lemma service_start_stop w connfd a w1 :
  (forall b, Some b ∈ registry w -> is_Some (heap w !! b)) ->
  service_start connfd w = Some (Some a, w1) ->
  service_stop connfd a w1 =
    Some (tt, mkWorld (heap w) (registry w)
                      (out w ++ [Wr connfd (line_ON_HOOK connfd);
                                 Cl connfd; Cl connfd])).
Proof.
  intros Hlive. unfold service_start, tu_init.
  unfold bind at 1. unfold bind at 1. rewrite pbx_register_unfold.
  cbn [heap registry out].
  set (a0 := fresh (dom (heap w))).
  assert (Hfresh : heap w !! a0 = None).
  { apply not_elem_of_dom. apply is_fresh. }
  assert (Hnot : Some a0 ∉ registry w).
  { intros Hin. destruct (Hlive _ Hin) as [x Hx]. congruence. }
  destruct (list_find _ (registry w)) as [[i s]|] eqn:Hf.
  2:{ rewrite decide_True by reflexivity. unfold bind, close, emit, ret.
      intros H; inversion H. }
  rewrite decide_False by discriminate. unfold ret.
  intros H; inversion H; subst a w1; clear H.
  apply list_find_Some in Hf as (Hi & -> & Hmin).
  destruct (list_elem_of_split_length _ _ _ Hi) as (pre & post & Hreg & Hlen).
  assert (Hpre : Some a0 ∉ pre).
  { intros Hin. apply Hnot. rewrite Hreg. apply elem_of_app. left. exact Hin. }
  unfold service_stop, close, emit. unfold bind at 1. unfold bind at 1.
  erewrite (pbx_unregister_idle _ a0 _ pre post);
    [ | cbn [registry]; rewrite Hreg, Hlen, insert_middle; reflexivity
      | exact Hpre
      | cbn [heap]; apply lookup_insert_eq
      | cbn [state]; repeat split; discriminate ].
  unfold ret, after_unref, closes, idle_hangup_lines.
  cbn [heap registry out fd target state ref_count].
  destruct (decide (1 - 1 = 0)); [|lia].
  rewrite decide_True by reflexivity.
  f_equal. f_equal. rewrite <- Hreg.
  apply world_eq.
  - rewrite delete_insert_eq. apply delete_id, Hfresh.
  - rewrite <- !app_assoc. reflexivity.
Qed.

Lemma pbx_unregister_paired w a t p u pre post (s : tu_state) :
  registry w = (pre ++ Some a :: post)%list ->
  Some a ∉ pre ->
  heap w !! a = Some t ->
  target t = Some p ->
  p <> a ->
  heap w !! p = Some u ->
  (state t = TU_CONNECTED \/ state t = TU_RINGING) /\ s = TU_DIAL_TONE \/
  state t = TU_RING_BACK /\ s = TU_ON_HOOK ->
  pbx_unregister (Some a) w =
    Some (0, mkWorld
               (after_unref a (mkTU (fd t) None TU_ON_HOOK (ref_count t))
                  (after_unref p (mkTU (fd u) None s (ref_count u)) (heap w)))
               (pre ++ None :: post)
               (out w ++ [Wr (fd t) (line_ON_HOOK (fd t));
                          Wr (fd u) (match s with
                                     | TU_DIAL_TONE => line_DIAL_TONE
                                     | _ => line_ON_HOOK (fd u)
                                     end)]
                     ++ closes (mkTU (fd u) None s (ref_count u))
                     ++ closes (mkTU (fd t) None TU_ON_HOOK (ref_count t)))).
Proof.
  intros Hreg Hn Ha Ht Hne Hp Hs. unfold pbx_unregister. unfold bind at 1.
  unfold get_registry. rewrite Hreg, (list_find_registered _ _ _ Hn).
  rewrite run_deref. run_step.
  rewrite decide_False
    by (intros (H1 & H2 & H3); destruct Hs as [[[E|E] _]|[E _]]; congruence).
  unfold bind at 1. unfold bind at 1.
  rewrite (tu_hangup_paired _ _ _ _ _ s Ha Ht Hne Hp Hs).
  unfold ret at 1. unfold bind, set_registry, ret. cbn [heap registry out].
  rewrite insert_middle. reflexivity.
Qed.

(** X16.  [pbx_unregister] of a registered unit that is in a call ends the
    call as its hangup does and empties the slot, but drops no further
    reference: with counts other than 1 the unit stays allocated, on hook and
    without peer, with its count one lower, while no slot before or at its
    own holds it any more. *)
Theorem unregister_in_call_keeps_unit w a t p u pre post (s : tu_state) :
  registry w = (pre ++ Some a :: post)%list ->
  Some a ∉ pre ->
  heap w !! a = Some t ->
  target t = Some p ->
  p <> a ->
  heap w !! p = Some u ->
  (state t = TU_CONNECTED \/ state t = TU_RINGING) /\ s = TU_DIAL_TONE \/
  state t = TU_RING_BACK /\ s = TU_ON_HOOK ->
  ref_count t <> 1 ->
  ref_count u <> 1 ->
  exists w',
    pbx_unregister (Some a) w = Some (0, w') /\
    registry w' = (pre ++ None :: post)%list /\
    heap w' !! a = Some (mkTU (fd t) None TU_ON_HOOK (ref_count t - 1)) /\
    heap w' !! p = Some (mkTU (fd u) None s (ref_count u - 1)) /\
    (forall x, x <> a -> x <> p -> heap w' !! x = heap w !! x) /\
    (forall d, Cl d ∈ out w' -> Cl d ∈ out w).
Proof.
  intros Hreg Hn Ha Ht Hne Hp Hs Hrt Hru. eexists.
  split; [apply (pbx_unregister_paired _ _ _ _ _ _ _ s Hreg Hn Ha Ht Hne Hp Hs)|].
  rewrite !after_unref_keep, !closes_keep by assumption.
  cbn [heap registry out fd target state ref_count]. repeat split.
  - apply lookup_insert_eq.
  - rewrite lookup_insert_ne by congruence. apply lookup_insert_eq.
  - intros x Hxa Hxb. rewrite !lookup_insert_ne by congruence. reflexivity.
  - intros d Hd. rewrite !app_nil_r in Hd.
    apply elem_of_app in Hd as [Hd|Hd]; [exact Hd|].
    apply elem_of_cons in Hd as [Hd|Hd]; [discriminate Hd|].
    apply elem_of_cons in Hd as [Hd|Hd]; [discriminate Hd|inversion Hd].
Qed.

Lemma unregister_in_call_keeps_unit_witness :
  exists w',
    pbx_unregister (Some 1%positive) ex_world_connected = Some (0, w') /\
    registry w' = ([] ++ None :: [Some 2%positive])%list /\
    heap w' !! 1%positive
      = Some (mkTU (fd ex_tu_conn_4) None TU_ON_HOOK (ref_count ex_tu_conn_4 - 1)) /\
    heap w' !! 2%positive
      = Some (mkTU (fd ex_tu_conn_5) None TU_DIAL_TONE (ref_count ex_tu_conn_5 - 1)) /\
    (forall x, x <> 1%positive -> x <> 2%positive ->
               heap w' !! x = heap ex_world_connected !! x) /\
    (forall d, Cl d ∈ out w' -> Cl d ∈ out ex_world_connected).
Proof.
  apply (unregister_in_call_keeps_unit ex_world_connected 1%positive ex_tu_conn_4
           2%positive ex_tu_conn_5 [] [Some 2%positive] TU_DIAL_TONE).
  - reflexivity.
  - apply not_elem_of_nil.
  - reflexivity.
  - reflexivity.
  - discriminate.
  - reflexivity.
  - left. split; [left; reflexivity|reflexivity].
  - intros H. cbv in H. discriminate H.
  - intros H. cbv in H. discriminate H.
Defined.

(** ** Command lines *)

Lemma split_space_word v r :
  split_space v = None ->
  split_space (v ++ " " ++ r) = Some (v, r).
Proof.
  induction v as [|c v IH]; intros H.
  - reflexivity.
  - simpl in H |- *. destruct (Ascii.eqb c " "); [discriminate H|].
    destruct (split_space v) as [[x y]|]; [discriminate H|].
    rewrite IH by reflexivity. reflexivity.
Qed.

Lemma tokenize_chat msg : tokenize ("chat " ++ msg) = Args2 "chat" msg.
Proof. destruct msg; reflexivity. Qed.

(** X17.  Everything after [chat] and one space is the message, spaces
    included: for a connected unit the line [chat <msg>] makes [tu_chat] send
    the peer the very bytes of the line, followed by CR LF, and then the
    sender its own [CONNECTED] line; no unit changes. *)
Theorem chat_line_is_forwarded_verbatim w a t p u msg :
  heap w !! a = Some t ->
  state t = TU_CONNECTED ->
  target t = Some p ->
  p <> a ->
  heap w !! p = Some u ->
  dispatch (Some a) ("chat " ++ msg) w =
    Some (tt, mkWorld (heap w) (registry w)
                      (out w ++ [Wr (fd u) (("chat " ++ msg) ++ EOL);
                                 Wr (fd t) ("CONNECTED " ++ dec (fd u) ++ EOL)])).
Proof.
  intros Ha Hs Ht Hne Hp. unfold dispatch. rewrite tokenize_chat.
  change (String.eqb "chat" "dial") with false.
  change (String.eqb "chat" "chat") with true. cbv iota.
  rewrite (bind_Some _ _ _ _ _ (tu_chat_connected _ _ _ _ _ msg Ha Hs Ht Hne Hp)).
  reflexivity.
Qed.

Lemma chat_line_is_forwarded_verbatim_witness :
  dispatch (Some 1%positive) ("chat " ++ "hello  big world") ex_world_connected =
    Some (tt, mkWorld (heap ex_world_connected) (registry ex_world_connected)
                      (out ex_world_connected
                       ++ [Wr (fd ex_tu_conn_5)
                              (("chat " ++ "hello  big world") ++ EOL);
                           Wr (fd ex_tu_conn_4)
                              ("CONNECTED " ++ dec (fd ex_tu_conn_5) ++ EOL)])).
Proof.
  apply (chat_line_is_forwarded_verbatim ex_world_connected 1%positive
           ex_tu_conn_4 2%positive ex_tu_conn_5 "hello  big world").
  - reflexivity.
  - reflexivity.
  - reflexivity.
  - discriminate.
  - reflexivity.
Defined.

Lemma eqb_false_of_neq (x y : string) : x <> y -> String.eqb x y = false.
Proof. intros H. apply String.eqb_neq, H. Qed.

(** X18.  Lines that are no command are dropped without a reply: a line
    without a space other than [pickup], [hangup] and [chat] (the empty line
    and a bare [dial] among them), and a line of two words whose first is
    neither [dial] nor [chat] (so [pickup] or [hangup] followed by a word).
    Nothing changes and nothing is written. *)
Theorem unknown_lines_are_ignored tu w client_msg :
  (split_space client_msg = None /\
   client_msg <> "pickup" /\ client_msg <> "hangup" /\ client_msg <> "chat") \/
  (exists v arg, client_msg = v ++ " " ++ arg /\
                 split_space v = None /\ split_space arg = None /\
                 v <> "dial" /\ v <> "chat") ->
  dispatch tu client_msg w = Some (tt, w).
Proof.
  intros [(Hsp & H1 & H2 & H3)|(v & arg & -> & Hv & Harg & H1 & H2)];
    unfold dispatch, tokenize.
  - rewrite Hsp.
    rewrite !eqb_false_of_neq by assumption. reflexivity.
  - rewrite (split_space_word _ _ Hv).
    destruct arg as [|c r].
    + rewrite !eqb_false_of_neq by assumption. reflexivity.
    + rewrite (eqb_false_of_neq v "chat") by assumption. rewrite Harg.
      rewrite !eqb_false_of_neq by assumption. reflexivity.
Qed.

Lemma unknown_lines_are_ignored_witness :
  dispatch (Some 1%positive) "pickup now" ex_world_on_hook
    = Some (tt, ex_world_on_hook).
Proof.
  apply (unknown_lines_are_ignored (Some 1%positive) ex_world_on_hook "pickup now").
  right. exists "pickup", "now". repeat split; discriminate.
Defined.



(** ** Numbers on the wire *)

(** The value of the digit at the head of the text being read. *)
Ltac eval_digit :=
  cbn [read_digits];
  match goal with
  | |- context [digit_value ?c] =>
      let v := eval vm_compute in (digit_value c) in
      change (digit_value c) with v
  end;
  cbv iota beta.

Lemma read_digits_acc (d : Decimal.uint) (p : positive) :
  read_digits (NilEmpty.string_of_uint d) (Z.pos p) = Z.pos (Pos.of_uint_acc d p).
Proof.
  revert p. induction d; intros p; cbn [NilEmpty.string_of_uint Pos.of_uint_acc];
    [reflexivity|..];
    (eval_digit; rewrite <- IHd; f_equal; lia).
Qed.

Lemma read_digits_uint (d : Decimal.uint) :
  read_digits (NilEmpty.string_of_uint d) 0 = Z.of_N (Pos.of_uint d).
Proof.
  induction d; cbn [NilEmpty.string_of_uint Pos.of_uint];
    [reflexivity|eval_digit; exact IHd|..];
    (eval_digit; apply read_digits_acc).
Qed.

Lemma strtol_of_string_of_int (i : Decimal.int) :
  strtol (NilZero.string_of_int i) = clamp_long (Z.of_int i).
Proof.
  destruct i as [d|d]; unfold Z.of_int, Z.of_uint.
  - rewrite <- read_digits_uint.
    destruct d; reflexivity.
  - rewrite <- read_digits_uint.
    destruct d; reflexivity.
Qed.

Lemma to_int_small z : - 2 ^ 31 <= z < 2 ^ 31 -> to_int (clamp_long z) = z.
Proof.
  intros H. unfold clamp_long, to_int.
  rewrite Z.min_r by lia. rewrite Z.max_r by lia.
  rewrite Z.mod_small by lia. lia.
Qed.

Lemma atoi_dec z : - 2 ^ 31 <= z < 2 ^ 31 -> atoi (dec z) = z.
Proof.
  intros H. unfold atoi, dec. rewrite strtol_of_string_of_int.
  rewrite DecimalZ.of_to. apply to_int_small, H.
Qed.

Lemma split_space_uint (d : Decimal.uint) :
  split_space (NilEmpty.string_of_uint d) = None.
Proof. induction d; cbn; rewrite ?IHd; reflexivity. Qed.

Lemma split_space_dec z : split_space (dec z) = None.
Proof.
  unfold dec. destruct (Z.to_int z) as [d|d]; cbn.
  - destruct d; try apply (split_space_uint (_ d)); reflexivity.
  - destruct d; cbn; rewrite ?split_space_uint; reflexivity.
Qed.

(** X20.  The number that [%d] prints is read back by [atoi]: for every
    value of an [int], [atoi] of its decimal text is the value, and the line
    [dial <n>] made with that text dials [n]. *)
Theorem printed_extension_dials_back tu w n :
  - 2 ^ 31 <= n < 2 ^ 31 ->
  atoi (dec n) = n /\
  dispatch tu ("dial " ++ dec n) w = (pbx_dial tu n ;;; ret tt) w.
Proof.
  intros H. split; [apply (atoi_dec _ H)|].
  rewrite (dispatch_dial _ _ _ (split_space_dec n)), (atoi_dec _ H).
  reflexivity.
Qed.

Lemma printed_extension_dials_back_witness :
  atoi (dec 5) = 5 /\
  dispatch (Some 1%positive) ("dial " ++ dec 5) (ex_w3 2)
    = (pbx_dial (Some 1%positive) 5 ;;; ret tt) (ex_w3 2).
Proof.
  apply (printed_extension_dials_back (Some 1%positive) (ex_w3 2) 5). lia.
Defined.

(** ** Reading lines *)

Lemma append_assoc (s1 s2 s3 : string) : (s1 ++ s2) ++ s3 = s1 ++ (s2 ++ s3).
Proof.
  induction s1 as [|c s1 IH]; [reflexivity|].
  change (String c ((s1 ++ s2) ++ s3) = String c (s1 ++ (s2 ++ s3))).
  f_equal. exact IH.
Qed.

Lemma append_empty_r (s : string) : s ++ EmptyString = s.
Proof.
  induction s as [|c s IH]; [reflexivity|].
  change (String c (s ++ EmptyString) = String c s). f_equal. exact IH.
Qed.

Lemma bytes_app s1 s2 : bytes (s1 ++ s2) = (bytes s1 ++ bytes s2)%list.
Proof.
  induction s1 as [|c s1 IH]; [reflexivity|].
  change (RByte c :: bytes (s1 ++ s2) = RByte c :: (bytes s1 ++ bytes s2))%list.
  f_equal. exact IH.
Qed.

Lemma no_cr_cons c s : no_cr (String c s) -> c <> CR /\ no_cr s.
Proof.
  unfold no_cr. simpl. intros H. split.
  - intros ->. apply H, list_elem_of_here.
  - intros Hin. apply H, list_elem_of_further, Hin.
Qed.

(** Bytes other than CR are stored one by one. *)
Lemma read_loop_plain line stream input :
  no_cr line ->
  read_loop stream (bytes line ++ input) = read_loop (stream ++ line) input.
Proof.
  revert stream. induction line as [|c line IH]; intros stream Hn.
  - rewrite append_empty_r. reflexivity.
  - apply no_cr_cons in Hn as [Hc Hn].
    change (bytes (String c line) ++ input)%list
      with (RByte c :: (bytes line ++ input))%list.
    cbn [read_loop]. rewrite (proj2 (Ascii.eqb_neq c CR) Hc).
    rewrite (IH _ Hn), append_assoc. reflexivity.
Qed.

Lemma read_loop_frames stream input line rest :
  read_loop stream input = Some (line, rest) ->
  exists payload,
    line = stream ++ payload /\
    input = (bytes payload ++ RByte CR :: RByte LF :: rest)%list.
Proof.
  revert stream.
  induction input as [input IH] using (induction_ltof1 _ (@length _)).
  unfold ltof in IH. intros stream H.
  destruct input as [|[c|] input1]; [discriminate|simpl in H|discriminate].
  destruct (Ascii.eqb c CR) eqn:Ec.
  - apply Ascii.eqb_eq in Ec. subst c.
    destruct input1 as [|[c2|] input2]; [discriminate|simpl in H|discriminate].
    destruct (Ascii.eqb c2 LF) eqn:El.
    + apply Ascii.eqb_eq in El. subst c2. inversion H; subst.
      exists EmptyString. rewrite append_empty_r. auto.
    + apply IH in H as (payload & -> & ->); [|simpl; lia].
      exists (String CR (String c2 payload)). rewrite append_assoc. auto.
  - apply IH in H as (payload & -> & ->); [|simpl; lia].
    exists (String c payload). rewrite append_assoc. auto.
Qed.

(** X21.  [read_client_msg] returns a line that holds no CR exactly as it was
    sent when CR LF follows it, and leaves what comes after the CR LF
    unread. *)
Theorem read_client_msg_takes_one_line line rest :
  no_cr line ->
  read_client_msg (bytes line ++ RByte CR :: RByte LF :: rest) = Some (line, rest).
Proof.
  intros Hn. unfold read_client_msg. rewrite (read_loop_plain _ _ _ Hn).
  reflexivity.
Qed.

Lemma read_client_msg_takes_one_line_witness :
  read_client_msg (bytes "dial 5" ++ RByte CR :: RByte LF :: bytes "hang")
    = Some ("dial 5", bytes "hang").
Proof.
  apply (read_client_msg_takes_one_line "dial 5" (bytes "hang")).
  unfold no_cr. simpl. intros H.
  repeat (apply elem_of_cons in H as [H|H]; [discriminate H|]).
  inversion H.
Defined.

(** X22.  What [read_client_msg] returns is what it consumed: the input is the
    returned line, then CR LF, then the input left unread; so nothing is
    returned, and the bytes read are dropped, when the input ends or fails
    before a CR LF. *)
Theorem read_client_msg_is_lossless input line rest :
  read_client_msg input = Some (line, rest) ->
  input = (bytes line ++ RByte CR :: RByte LF :: rest)%list /\
  (length rest < length input)%nat.
Proof.
  intros H. apply read_loop_frames in H as (payload & -> & ->).
  split; [reflexivity|]. rewrite length_app. simpl. lia.
Qed.

Lemma read_client_msg_is_lossless_witness :
  (bytes "a" ++ RByte CR :: RByte LF :: bytes "b")%list
    = (bytes "a" ++ RByte CR :: RByte LF :: bytes "b")%list /\
  (length (bytes "b") < length (bytes "a" ++ RByte CR :: RByte LF :: bytes "b"))%nat.
Proof.
  apply (read_client_msg_is_lossless
           (bytes "a" ++ RByte CR :: RByte LF :: bytes "b") "a" (bytes "b")).
  reflexivity.
Defined.

Lemma read_loop_cr stream c2 rest :
  c2 <> LF ->
  read_loop stream (RByte CR :: RByte c2 :: rest) =
    read_loop (stream ++ String CR (String c2 EmptyString)) rest.
Proof.
  intros H. cbn [read_loop]. change (Ascii.eqb CR CR) with true. cbv iota.
  rewrite (proj2 (Ascii.eqb_neq c2 LF) H). reflexivity.
Qed.

Lemma read_loop_end stream rest :
  read_loop stream (RByte CR :: RByte LF :: rest) = Some (stream, rest).
Proof. reflexivity. Qed.

(** X23.  A CR is always stored together with the byte after it unless that
    byte is LF, also when that byte is a second CR: the bytes CR CR LF do not
    end a line, they are part of it. *)
Theorem cr_cr_lf_does_not_end_line line1 line2 rest :
  no_cr line1 ->
  no_cr line2 ->
  read_client_msg
    (bytes line1 ++ RByte CR :: RByte CR :: RByte LF
       :: bytes line2 ++ RByte CR :: RByte LF :: rest)
  = Some (line1 ++ String CR (String CR (String LF line2)), rest).
Proof.
  intros H1 H2. unfold read_client_msg. rewrite (read_loop_plain _ _ _ H1).
  rewrite read_loop_cr by discriminate.
  change (RByte LF :: bytes line2 ++ RByte CR :: RByte LF :: rest)%list
    with (bytes (String LF line2) ++ RByte CR :: RByte LF :: rest)%list.
  rewrite read_loop_plain.
  - rewrite read_loop_end, append_assoc. reflexivity.
  - unfold no_cr in *. intros H.
    apply elem_of_cons in H as [H|H]; [discriminate H|]. exact (H2 H).
Qed.

Lemma cr_cr_lf_does_not_end_line_witness :
  read_client_msg
    (bytes "a" ++ RByte CR :: RByte CR :: RByte LF
       :: bytes "b" ++ RByte CR :: RByte LF :: [])
  = Some ("a" ++ String CR (String CR (String LF "b")), []).
Proof.
  apply (cr_cr_lf_does_not_end_line "a" "b" []).
  - unfold no_cr. simpl. intros H.
    apply elem_of_cons in H as [H|H]; [discriminate H|]. inversion H.
  - unfold no_cr. simpl. intros H.
    apply elem_of_cons in H as [H|H]; [discriminate H|]. inversion H.
Defined.

(** ** The service loop *)

Lemma service_loop_step tu input :
  service_loop tu input =
    match read_client_msg input with
    | Some (client_msg, rest) =>
        dispatch tu (c_str client_msg) ;;; service_loop tu rest
    | None => ret tt
    end.
Proof.
  rewrite service_loop_equation_1. unfold inspect.
  enough (G : forall r (e : read_client_msg input = r),
             service_loop_unfold_clause_1 tu input (exist _ r e) =
             match r with
             | Some (client_msg, rest) =>
                 dispatch tu (c_str client_msg) ;;; service_loop tu rest
             | None => ret tt
             end) by apply G.
  intros [[client_msg rest]|] e; reflexivity.
Qed.

Lemma read_loop_eof partial stream :
  no_cr partial -> read_loop stream (bytes partial) = None.
Proof.
  intros H. rewrite <- (app_nil_r (bytes partial)).
  rewrite (read_loop_plain _ _ _ H). reflexivity.
Qed.

Lemma read_loop_error partial stream rest :
  no_cr partial -> read_loop stream (bytes partial ++ RError :: rest) = None.
Proof. intros H. rewrite (read_loop_plain _ _ _ H). reflexivity. Qed.

(** X24.  The service loop handles the lines in order: with a line free of
    CR at the head of the input, it dispatches that line and goes on with
    what follows the CR LF; it ends, without a reply, when the input ends or
    fails, and what was read of an unfinished line is dropped. *)
Theorem service_loop_runs_lines_in_order tu line rest :
  no_cr line ->
  service_loop tu (bytes line ++ RByte CR :: RByte LF :: rest) =
    (dispatch tu (c_str line) ;;; service_loop tu rest) /\
  service_loop tu (bytes line) = ret tt /\
  service_loop tu (bytes line ++ RError :: rest) = ret tt.
Proof.
  intros Hn. split; [|split]; rewrite service_loop_step; unfold read_client_msg.
  - rewrite (read_loop_plain _ _ _ Hn). reflexivity.
  - rewrite (read_loop_eof _ _ Hn). reflexivity.
  - rewrite (read_loop_error _ _ _ Hn). reflexivity.
Qed.

Lemma service_loop_runs_lines_in_order_witness :
  service_loop (Some 1%positive) (bytes "pickup" ++ RByte CR :: RByte LF :: bytes "han") =
    (dispatch (Some 1%positive) (c_str "pickup")
     ;;; service_loop (Some 1%positive) (bytes "han")) /\
  service_loop (Some 1%positive) (bytes "pickup") = ret tt /\
  service_loop (Some 1%positive) (bytes "pickup" ++ RError :: bytes "han") = ret tt.
Proof.
  apply (service_loop_runs_lines_in_order (Some 1%positive) "pickup" (bytes "han")).
  unfold no_cr. simpl. intros H.
  repeat (apply elem_of_cons in H as [H|H]; [discriminate H|]).
  inversion H.
Defined.

Lemma c_str_cut cmd junk :
  no_nul cmd -> c_str (cmd ++ String "000" junk) = cmd.
Proof.
  induction cmd as [|c cmd IH]; intros H.
  - reflexivity.
  - change (String c cmd ++ String "000" junk)
      with (String c (cmd ++ String "000" junk)).
    cbn [c_str].
    assert (Hc : c <> "000"%char).
    { intros ->. apply H, list_elem_of_here. }
    rewrite (proj2 (Ascii.eqb_neq _ _) Hc). f_equal. apply IH.
    intros Hin. apply H, list_elem_of_further, Hin.
Qed.

(** X25.  A NUL byte in a line hides the rest of the line: the bytes up to
    the CR LF are all consumed, but the dispatcher sees only the text before
    the first NUL. *)
Theorem nul_byte_cuts_line tu cmd junk rest :
  no_nul cmd ->
  no_cr (cmd ++ String "000" junk) ->
  service_loop tu (bytes (cmd ++ String "000" junk) ++ RByte CR :: RByte LF :: rest) =
    (dispatch tu cmd ;;; service_loop tu rest).
Proof.
  intros Hz Hn. rewrite service_loop_step. unfold read_client_msg.
  rewrite (read_loop_plain _ _ _ Hn). cbn [read_loop].
  change (Ascii.eqb CR CR) with true. change (Ascii.eqb LF LF) with true.
  cbv iota. change (EmptyString ++ (cmd ++ String "000" junk))
    with (cmd ++ String "000" junk).
  rewrite (c_str_cut _ _ Hz). reflexivity.
Qed.

Lemma nul_byte_cuts_line_witness :
  service_loop (Some 1%positive)
    (bytes ("pickup" ++ String "000" "xyz") ++ RByte CR :: RByte LF :: []) =
    (dispatch (Some 1%positive) "pickup" ;;; service_loop (Some 1%positive) []).
Proof.
  apply (nul_byte_cuts_line (Some 1%positive) "pickup" "xyz" []).
  - unfold no_nul. simpl. intros H.
    repeat (apply elem_of_cons in H as [H|H]; [discriminate H|]).
    inversion H.
  - unfold no_cr. simpl. intros H.
    repeat (apply elem_of_cons in H as [H|H]; [discriminate H|]).
    inversion H.
Defined.

(** X15.  A client that connects and goes away before it has sent a whole
    line: [pbx_client_service] leaves every unit and every slot as before the
    connection; the client was sent [ON HOOK <connfd>], and the descriptor is
    closed twice, once by the service function and once by [tu_unref]. *)
Theorem silent_session_leaves_no_trace w connfd partial :
  (forall b, Some b ∈ registry w -> is_Some (heap w !! b)) ->
  None ∈ registry w ->
  no_cr partial ->
  pbx_client_service connfd (bytes partial) w =
    Some (tt, mkWorld (heap w) (registry w)
                      (out w ++ [Wr connfd ("ON HOOK " ++ dec connfd ++ EOL);
                                 Cl connfd; Cl connfd])).
Proof.
  intros Hlive Hfree Hn. unfold pbx_client_service. unfold bind at 1.
  destruct (service_start connfd w) as [[[a|] w1]|] eqn:Hs.
  - rewrite service_loop_step. unfold read_client_msg.
    rewrite (read_loop_eof _ _ Hn). unfold bind at 1. unfold ret at 1.
    apply (service_start_stop _ _ _ _ Hlive Hs).
  - exfalso. revert Hs. unfold service_start, tu_init.
    unfold bind at 1. unfold bind at 1. rewrite pbx_register_unfold.
    cbn [heap registry out].
    destruct (list_find _ (registry w)) as [[i s]|] eqn:Hf.
    + rewrite decide_False by discriminate. discriminate.
    + apply list_find_None in Hf. rewrite Forall_forall in Hf.
      exfalso. apply (Hf _ Hfree). reflexivity.
  - exfalso. revert Hs. unfold service_start, tu_init.
    unfold bind at 1. unfold bind at 1. rewrite pbx_register_unfold.
    cbn [heap registry out].
    destruct (list_find _ (registry w)) as [[i s]|].
    + rewrite decide_False by discriminate. discriminate.
    + rewrite decide_True by reflexivity. discriminate.
Qed.

Lemma silent_session_leaves_no_trace_witness :
  pbx_client_service 5 (bytes "pick") (ex_w1 2) =
    Some (tt, mkWorld (heap (ex_w1 2)) (registry (ex_w1 2))
                      (out (ex_w1 2) ++ [Wr 5 ("ON HOOK " ++ dec 5 ++ EOL);
                                         Cl 5; Cl 5])).
Proof.
  apply (silent_session_leaves_no_trace (ex_w1 2) 5 "pick").
  - intros b Hb. simpl in Hb.
    repeat (apply elem_of_cons in Hb as [Hb|Hb];
            [first [discriminate Hb
                   |inversion Hb; subst; eexists; reflexivity]|]).
    inversion Hb.
  - simpl. apply list_elem_of_further, list_elem_of_here.
  - unfold no_cr. simpl. intros H.
    repeat (apply elem_of_cons in H as [H|H]; [discriminate H|]).
    inversion H.
Defined.

(** ** Reference counts and live slots *)

























(** *** Slots *)

















(** ** The extension is the descriptor *)

(** X29.  [tu_set_extension] overwrites the unit's descriptor, since the
    extension and the descriptor are one field: it writes nothing, afterwards
    [tu_extension] and [tu_fileno] both return the new number, and what the
    unit is told next goes to that number as a descriptor. *)
Theorem set_extension_redirects_output w a t ext :
  heap w !! a = Some t ->
  state t = TU_ON_HOOK ->
  exists w1,
    tu_set_extension (Some a) ext w = Some (0, w1) /\
    out w1 = out w /\
    tu_extension (Some a) w1 = Some (ext, w1) /\
    tu_fileno (Some a) w1 = Some (ext, w1) /\
    exists w2,
      tu_pickup (Some a) w1 = Some (0, w2) /\
      out w2 = (out w ++ [Wr ext ("DIAL TONE" ++ EOL)])%list.
Proof.
  intros Ha Hs. eexists. split.
  { unfold tu_set_extension. rewrite (run_load _ _ _ _ Ha). reflexivity. }
  cbn [out]. split; [reflexivity|].
  assert (E : forall w1 : world,
             heap w1 !! a = Some (mkTU ext (target t) (state t) (ref_count t)) ->
             tu_fileno (Some a) w1 = Some (ext, w1)).
  { intros w1 H1. unfold tu_fileno. rewrite (run_load _ _ _ _ H1). reflexivity. }
  split; [apply E; cbn [heap]; apply lookup_insert_eq|].
  split; [apply E; cbn [heap]; apply lookup_insert_eq|].
  eexists. split.
  { eapply tu_pickup_on_hook; [cbn [heap]; apply lookup_insert_eq|exact Hs]. }
  reflexivity.
Qed.

Lemma set_extension_redirects_output_witness :
  exists w1,
    tu_set_extension (Some 1%positive) 9 ex_world_on_hook = Some (0, w1) /\
    out w1 = out ex_world_on_hook /\
    tu_extension (Some 1%positive) w1 = Some (9, w1) /\
    tu_fileno (Some 1%positive) w1 = Some (9, w1) /\
    exists w2,
      tu_pickup (Some 1%positive) w1 = Some (0, w2) /\
      out w2 = (out ex_world_on_hook ++ [Wr 9 ("DIAL TONE" ++ EOL)])%list.
Proof.
  apply (set_extension_redirects_output ex_world_on_hook 1%positive ex_tu_on_hook 9);
    reflexivity.
Defined.

(** ** The port option *)

Lemma append_cons c (s t : string) : String c s ++ t = String c (s ++ t).
Proof. reflexivity. Qed.

Lemma skip_digits_uint (d : Decimal.uint) rest :
  skip_digits (NilEmpty.string_of_uint d ++ rest) = skip_digits rest.
Proof.
  induction d; cbn [NilEmpty.string_of_uint]; [reflexivity|..];
    rewrite append_cons; cbn [skip_digits];
    match goal with
    | |- context [digit_value ?c] =>
        let v := eval vm_compute in (digit_value c) in
        change (digit_value c) with v
    end; cbv iota beta; exact IHd.
Qed.

(** The tests on the character at the head of the text. *)
Ltac eval_head :=
  repeat match goal with
    | |- context [isspace ?c] =>
        let v := eval vm_compute in (isspace c) in
        change (isspace c) with v
    | |- context [digit_value ?c] =>
        let v := eval vm_compute in (digit_value c) in
        change (digit_value c) with v
    end;
  cbv iota beta.

Lemma strtol_endptr_int (i : Decimal.int) rest :
  strtol_endptr (NilZero.string_of_int i ++ rest) = Some (skip_digits rest).
Proof.
  destruct i as [d|d]; destruct d;
    cbn [NilZero.string_of_int NilZero.string_of_uint NilEmpty.string_of_uint];
    rewrite ?append_cons; unfold strtol_endptr; cbn [skip_spaces]; eval_head;
    cbn [skip_spaces skip_digits]; eval_head;
    rewrite ?skip_digits_uint; reflexivity.
Qed.

(** X30.  The port check of [main] looks at the form of the argument only:
    with [-p] and any integer as [printf] writes it, negative or larger than
    a port can be, the program goes on to listen and passes the text on as
    it is; the same text followed by anything that is no digit, a space
    among others, makes it print the usage line and exit. *)
Theorem port_check_is_on_form_only prog n c junk :
  digit_value c = None ->
  main_options [prog; "-p"; dec n] = Listen (dec n) /\
  main_options [prog; "-p"; dec n ++ String c junk] = Usage.
Proof.
  intros Hc. unfold main_options. change (String.eqb "-p" "-p") with true.
  cbv iota. split.
  - rewrite <- (append_empty_r (dec n)) at 1. unfold dec.
    rewrite strtol_endptr_int. reflexivity.
  - unfold dec. rewrite strtol_endptr_int. cbn [skip_digits]. rewrite Hc.
    reflexivity.
Qed.

Lemma port_check_is_on_form_only_witness :
  main_options ["bin/pbx"; "-p"; dec (-70000)] = Listen (dec (-70000)) /\
  main_options ["bin/pbx"; "-p"; dec (-70000) ++ String " " EmptyString] = Usage.
Proof.
  apply (port_check_is_on_form_only "bin/pbx" (-70000) " " EmptyString).
  reflexivity.
Defined.
